(** * chess_opencv: the robot link, the command codec and the board movement

    A shallow embedding of [communication_py.py] (GPIO link, command
    codec, off-board slots) and of [movement.py] (move translation, move
    identification, board reconciliation), with the properties of the
    design document stated and settled against the code. *)

From Stdlib Require Import ZArith List Bool Lia QArith Lqa.
From stdpp Require Import gmap.
Import ListNotations.

Local Open Scope Z_scope.

(** ** python-chess vocabulary *)

(** [chess.Color]: [chess.WHITE = True], [chess.BLACK = False]. *)
Inductive Color := WHITE | BLACK.

(** [chess.PieceType]: [PAWN = 1] ... [KING = 6]. *)
Inductive PieceType := PAWN | KNIGHT | BISHOP | ROOK | QUEEN | KING.

(** [chess.Piece(piece_type, color)], compared by value. *)
Record Piece := mkPiece { piece_type : PieceType; color : Color }.

(** [chess.Square] is an [int], here [Z]: real squares are [0..63], the
    off-board slots are negative. *)

Definition Color_eqb (a b : Color) : bool :=
  match a, b with
  | WHITE, WHITE | BLACK, BLACK => true
  | _, _ => false
  end.

Definition PieceType_eqb (a b : PieceType) : bool :=
  match a, b with
  | PAWN, PAWN | KNIGHT, KNIGHT | BISHOP, BISHOP
  | ROOK, ROOK | QUEEN, QUEEN | KING, KING => true
  | _, _ => false
  end.

Definition Piece_eqb (p q : Piece) : bool :=
  PieceType_eqb (piece_type p) (piece_type q) && Color_eqb (color p) (color q).

(** [not color] *)
Definition opposite (c : Color) : Color :=
  match c with WHITE => BLACK | BLACK => WHITE end.

(** ** communication_py.py *)

Module Comm.

(** Delay configuration, in seconds. *)
Definition DELAY_TIMEOUT_MIN_S : Q := 1 # 10.
Definition DELAY_TIMEOUT_MAX_S : Q := 10 # 1.
Definition DELAY_WAIT_S : Q := 1 # 10.

(** Signal waiting return values. *)
Definition RESPONSE_TIMEOUT : Z := 0.
Definition RESPONSE_SUCCESS : Z := 1.

(** The dictionary [pieces_white_perspective]. *)
Definition pieces_white_perspective (t : PieceType) (c : Color) : Z :=
  match t, c with
  | ROOK, WHITE => -1
  | BISHOP, WHITE => -2
  | KNIGHT, WHITE => -3
  | QUEEN, WHITE => -4
  | KING, WHITE => -5
  | PAWN, WHITE => -6
  | ROOK, BLACK => -7
  | BISHOP, BLACK => -8
  | KNIGHT, BLACK => -9
  | QUEEN, BLACK => -10
  | KING, BLACK => -11
  | PAWN, BLACK => -12
  end.

Definition off_board_square (t : PieceType) (c : Color) (perspective : Color) : Z :=
  let piece_value := pieces_white_perspective t c in
  match perspective with
  | BLACK =>
      (* Flip groups *)
      if piece_value >=? -6 then piece_value - 6 else piece_value + 6
  | WHITE => piece_value
  end.

(** [a < b] on the rationals, as a boolean. *)
Definition Qltb (a b : Q) : bool := negb (Qle_bool b a).

(** Python's [min(a, b)] and [max(a, b)]: the first argument unless the
    second is strictly smaller (larger). *)
Definition py_min (a b : Q) : Q := if Qltb b a then b else a.
Definition py_max (a b : Q) : Q := if Qltb a b then b else a.

(** Python's [int(x)]: truncation toward zero. *)
Definition py_int (x : Q) : Z := Z.quot (Qnum x) (Zpos (Qden x)).

(** Python floats are IEEE 754 binary64 numbers.  A finite one is read as
    the rational it denotes, and every float operation rounds its exact
    result to the nearest binary64 number, ties to the even significand. *)

(** [a / b] rounded to the nearest integer, ties to the even one
    ([0 <= a], [0 < b]). *)
Definition div_half_even (a b : Z) : Z :=
  let k := a / b in
  match 2 * (a mod b) ?= b with
  | Lt => k
  | Eq => if Z.even k then k else k + 1
  | Gt => k + 1
  end.

(** The exponent [e] with [2 ^ e <= n / d < 2 ^ (e + 1)]. *)
Definition floor_log2 (n d : positive) : Z :=
  let e := Z.log2 (Zpos n) - Z.log2 (Zpos d) in
  if (if 0 <=? e then Zpos d * 2 ^ e <=? Zpos n else Zpos d <=? Zpos n * 2 ^ (- e))
  then e else e - 1.

(** The binary64 number nearest to [n / d]: a significand of 53 bits over a
    unit in the last place [2 ^ q], [q] no smaller than -1074 (subnormal
    numbers).  A result of [2 ^ 1024] or more is [inf] in Python; it stands
    here as [2 ^ 1024], which compares with every finite number as [inf]
    does. *)
Definition round_pos (n d : positive) : Q :=
  let q := Z.max (floor_log2 n d - 52) (-1074) in
  if 0 <=? q then
    let m := div_half_even (Zpos n) (Zpos d * 2 ^ q) in
    inject_Z (Z.min (m * 2 ^ q) (2 ^ 1024))
  else
    let m := div_half_even (Zpos n * 2 ^ (- q)) (Zpos d) in
    Qmake m (Z.to_pos (2 ^ (- q))).

(** Rounding to binary64; it acts on the magnitude and keeps the sign. *)
Definition round64 (x : Q) : Q :=
  match Qnum x with
  | Z0 => 0
  | Zpos n => round_pos n (Qden x)
  | Zneg n => - round_pos n (Qden x)
  end.

(** [int(max(min(offset * 100, 100), -100))].  The offset is the float
    written by the rational [offset] (the float nearest to it: [15 # 100] is
    Python's [0.15]), or a Python [int], whose product with 100 is exact and
    is clamped and truncated to the same value.  The product is rounded as
    the float multiplication rounds it.  The floats [nan] and [inf] are no
    rationals: the offsets of this model are finite, and [int(nan)], which
    raises [ValueError], is outside it. *)
Definition percentage (offset : Q) : Z :=
  py_int (py_max (py_min (round64 (round64 offset * (100 # 1))) (100 # 1))
                 (- (100 # 1)))%Q.

(** The guard [0 >= square <= 63] is Python's chained comparison
    [0 >= square and square <= 63]. *)
Definition mirror_guard (square : Z) : bool := (0 >=? square) && (square <=? 63).

Definition form_command (from_square to_square : Z) (offset_x offset_y : Q)
    (perspective : Color) : Z :=
  (* Convert to decimal percentage *)
  let offset_x := percentage offset_x in
  let offset_y := percentage offset_y in
  let '(from_square, to_square, offset_x, offset_y) :=
    match perspective with
    | BLACK =>
        (* Invert square coordinates *)
        let from_square := if mirror_guard from_square then 63 - from_square else from_square in
        let to_square := if mirror_guard to_square then 63 - to_square else to_square in
        (* Invert percentages to reflect direction of perspective *)
        (from_square, to_square, - offset_x, - offset_y)
    | WHITE => (from_square, to_square, offset_x, offset_y)
    end in
  (* handle two's complement *)
  let from_square := Z.land from_square 255 in
  let to_square := Z.land to_square 255 in
  let offset_x := Z.land offset_x 255 in
  let offset_y := Z.land offset_y 255 in
  Z.lor (Z.lor (Z.lor (Z.shiftl from_square 24) (Z.shiftl offset_x 16))
               (Z.shiftl offset_y 8)) to_square.

(** The sixteen bit positions of a transmission, [range(16)]. *)
Definition cycles : list nat := seq 0 16.

(** What [issue_command] does to the two output lines, in program order. *)
Inductive LineEvent :=
| SetDat (v : Z)      (* line_dat.set_value(v) *)
| SetClk (v : Z)      (* line_clk.set_value(v) *)
| Sleep (s : Q).      (* time.sleep(s) *)

(** One iteration of the loop [for bit in range(16)]. *)
Definition send_bit (command : Z) (bit : Z) : list LineEvent :=
  let bit_value := Z.land (Z.shiftr command (15 - bit)) 1 in
  [ (if bit_value =? 0 then SetDat 0 else SetDat 1);
    SetClk 1; Sleep (2 # 10); SetClk 0; Sleep (2 # 10) ].

(** The output side of [issue_command]: the sixteen cycles and the final
    delay before the response is awaited. *)
Definition issue_command_lines (command : Z) : list LineEvent :=
  flat_map (fun bit => send_bit command (Z.of_nat bit)) cycles
  ++ [Sleep (2 # 10)].

(** The values driven on the data line, in order. *)
Definition dat_values (tr : list LineEvent) : list Z :=
  flat_map (fun e => match e with SetDat v => [v] | _ => [] end) tr.

(** The number of clock pulses (rising edges) in a trace. *)
Definition clk_pulses (tr : list LineEvent) : nat :=
  length (List.filter (fun e => match e with SetClk 1 => true | _ => false end) tr).

(** The environment of a wait: [clock k] is what the [k]-th call of
    [time.time()] returns and [resp j] what the [j]-th call of
    [line_resp.get_value()] returns (both counted from 0). *)
Record Env := mkEnv { clock : nat -> Q; resp : nat -> Z }.

(** The outcome of a wait: the returned value and the number of samples of
    the response line that were taken. *)
Record WaitResult := mkWait { returned : Z; samples : nat }.

(** The [while] loop of [wait_for_signal].  At the head of iteration [n] the
    clock has been read [n + 1] times ([start_time] and [n] loop guards) and
    the line has been sampled [n] times.  [fuel] bounds the iterations;
    [None] means the bound was reached. *)
Fixpoint wait_loop (env : Env) (start_time : Q) (fuel n : nat) : option WaitResult :=
  match fuel with
  | O => None
  | S fuel' =>
      if Qltb (clock env (S n) - start_time) DELAY_TIMEOUT_MAX_S then
        let signal := resp env n in
        if signal =? 0 then
          let elapsed := (clock env (S (S n)) - start_time)%Q in
          if Qltb elapsed DELAY_TIMEOUT_MIN_S
          then Some (mkWait RESPONSE_TIMEOUT (S n))
          else Some (mkWait RESPONSE_SUCCESS (S n))
        else (* time.sleep(DELAY_WAIT_S) *)
          wait_loop env start_time fuel' (S n)
      else Some (mkWait RESPONSE_TIMEOUT n)
  end.

Definition wait_for_signal (env : Env) (fuel : nat) : option WaitResult :=
  let start_time := clock env 0 in
  wait_loop env start_time fuel 0.

(** [issue_command]: the line events, then the wait. *)
Definition issue_command (env : Env) (fuel : nat) (command : Z)
    : list LineEvent * option WaitResult :=
  (issue_command_lines command, wait_for_signal env fuel).

(** Elapsed time seen by the loop guard of iteration [n]. *)
Definition guard_elapsed (env : Env) (n : nat) : Q := (clock env (S n) - clock env 0)%Q.

(** Elapsed time computed after sample [n] read low. *)
Definition sample_elapsed (env : Env) (n : nat) : Q := (clock env (S (S n)) - clock env 0)%Q.

(** A clock on which [time.sleep(DELAY_WAIT_S)] takes its time.  Nothing
    sleeps between the reading of [start_time] and the first loop guard: the
    clock only does not go back there.  After a sample [n] that reads high
    the loop sleeps before it reads the clock for the next guard.  After a
    sample that reads low the clock is read at once, and nothing is asked of
    that reading. *)
Definition sleeps (env : Env) : Prop :=
  (clock env 0 <= clock env 1)%Q
  /\ forall n, resp env n <> 0 ->
                (clock env (S n) + DELAY_WAIT_S <= clock env (S (S n)))%Q.

End Comm.

(** ** python-chess: what movement.py reads of [chess.Move] and [chess.Board] *)

Module Chess.

(** [chess.Move(from_square, to_square, promotion=None)]. *)
Record Move := mkMove {
  from_square : Z;
  to_square : Z;
  promotion : option PieceType
}.

(** [chess.Board], reduced to the occupancy ([piece_map()]), the side to
    move and the en passant square. *)
Record Board := mkBoard {
  pieces : gmap Z Piece;
  turn : Color;
  ep_square : option Z
}.

(** [chess.SQUARES = list(range(64))] *)
Definition SQUARES : list Z := map Z.of_nat (seq 0 64).

(** [Board.piece_at(square)]: the piece on the square, or [None]. *)
Definition piece_at (b : Board) (square : Z) : option Piece := pieces b !! square.

(** [chess.square_file(square) = square & 7] *)
Definition square_file (square : Z) : Z := Z.land square 7.

(** [chess.square_rank(square) = square >> 3] *)
Definition square_rank (square : Z) : Z := Z.shiftr square 3.

(** Equality of [Optional[Piece]] values ([==]). *)
Definition opiece_eqb (a b : option Piece) : bool :=
  match a, b with
  | Some p, Some q => Piece_eqb p q
  | None, None => true
  | _, _ => false
  end.

Definition opt_Z_eqb (a b : option Z) : bool :=
  match a, b with
  | Some x, Some y => x =? y
  | None, None => true
  | _, _ => false
  end.

Definition opt_type_eqb (a b : option PieceType) : bool :=
  match a, b with
  | Some x, Some y => PieceType_eqb x y
  | None, None => true
  | _, _ => false
  end.

(** [Move.__eq__]: field by field. *)
Definition Move_eqb (m n : Move) : bool :=
  (from_square m =? from_square n) && (to_square m =? to_square n)
  && opt_type_eqb (promotion m) (promotion n).

(** [Move.__bool__]: [bool(from_square or to_square or promotion)]. *)
Definition Move_bool (m : Move) : bool :=
  negb (from_square m =? 0) || negb (to_square m =? 0)
  || match promotion m with Some _ => true | None => false end.

(** [bool(self.kings & BB_SQUARES[square])] and the like: a piece of the
    given type stands on the square. *)
Definition type_on (b : Board) (t : PieceType) (square : Z) : bool :=
  match piece_at b square with
  | Some p => PieceType_eqb (piece_type p) t
  | None => false
  end.

(** [bool(self.occupied_co[c] & BB_SQUARES[square])] *)
Definition color_on (b : Board) (c : Color) (square : Z) : bool :=
  match piece_at b square with
  | Some p => Color_eqb (color p) c
  | None => false
  end.

(** [bool(self.occupied & BB_SQUARES[square])] *)
Definition occupied (b : Board) (square : Z) : bool :=
  match piece_at b square with Some _ => true | None => false end.

(** [Board.is_castling(move)]:
    a king moves by more than one file, or onto a rook of the side to move. *)
Definition is_castling (b : Board) (m : Move) : bool :=
  if type_on b KING (from_square m) then
    let diff := square_file (from_square m) - square_file (to_square m) in
    (Z.abs diff >? 1)
    || (type_on b ROOK (to_square m) && color_on b (turn b) (to_square m))
  else false.

(** [Board.is_en_passant(move)]:
    [ep_square == to_square], a pawn on [from_square],
    [abs(to_square - from_square) in [7, 9]] and [to_square] not occupied. *)
Definition is_en_passant (b : Board) (m : Move) : bool :=
  opt_Z_eqb (ep_square b) (Some (to_square m))
  && type_on b PAWN (from_square m)
  && (let d := Z.abs (to_square m - from_square m) in (d =? 7) || (d =? 9))
  && negb (occupied b (to_square m)).

(** [Board.is_capture(move)]:
    [touched = BB_SQUARES[from_square] ^ BB_SQUARES[to_square]];
    [bool(touched & self.occupied_co[not self.turn]) or self.is_en_passant(move)]. *)
Definition is_capture (b : Board) (m : Move) : bool :=
  (negb (from_square m =? to_square m)
   && (color_on b (opposite (turn b)) (from_square m)
       || color_on b (opposite (turn b)) (to_square m)))
  || is_en_passant b m.

(** Squares by name. *)
Definition A1 : Z := 0.
Definition C1 : Z := 2.
Definition D1 : Z := 3.
Definition F1 : Z := 5.
Definition G1 : Z := 6.
Definition H1 : Z := 7.
Definition A8 : Z := 56.
Definition C8 : Z := 58.
Definition D8 : Z := 59.
Definition F8 : Z := 61.
Definition G8 : Z := 62.
Definition H8 : Z := 63.

End Chess.

(** ** Exceptions *)

(** The Python exceptions the modelled code can raise. *)
Inductive Exn :=
| AttributeError   (* an attribute of [None] is read *)
| KeyError.        (* [dict.pop(key)] on a missing key *)

(** The outcome of a call: a returned value or a raised exception. *)
Inductive Result (A : Type) :=
| Ok (a : A)
| Raise (e : Exn).
Arguments Ok {A} a.
Arguments Raise {A} e.

Definition rbind {A B} (r : Result A) (k : A -> Result B) : Result B :=
  match r with
  | Ok a => k a
  | Raise e => Raise e
  end.

(** Reading an attribute of an [Optional] value. *)
Definition attr {A} (o : option A) : Result A :=
  match o with
  | Some a => Ok a
  | None => Raise AttributeError
  end.

(** [0 <= square <= 63] *)
Definition real_square (square : Z) : bool := (0 <=? square) && (square <=? 63).

(** ** movement.py *)

Module Movement.

(** The status values [robot.COMMAND_SUCCESS] and [robot.COMMAND_FAILURE]. *)
Inductive Response := COMMAND_SUCCESS | COMMAND_FAILURE.

(** One call of [robot.issue_command] made by [move_piece]: the squares of
    the relocation, the command word that was sent and the status that came
    back. *)
Record Relocation := mkRelocation {
  rel_from : Z;
  rel_to : Z;
  rel_command : Z;
  rel_response : Response
}.

(** A dictionary from squares to [Optional[Piece]] values, in insertion
    order (Python dictionaries iterate in insertion order). *)
Definition PieceDict := list (Z * option Piece).

Definition dict_mem (d : PieceDict) (k : Z) : bool :=
  existsb (fun e => fst e =? k) d.

(** [d.get(k)]: the value, or [None] when the key is missing. *)
Definition dict_get (d : PieceDict) (k : Z) : option Piece :=
  match find (fun e => fst e =? k) d with
  | Some e => snd e
  | None => None
  end.

(** [d.pop(k, None)] *)
Definition dict_pop_default (d : PieceDict) (k : Z) : PieceDict :=
  List.filter (fun e => negb (fst e =? k)) d.

(** [d.pop(k)]: raises [KeyError] when the key is missing. *)
Definition dict_pop (d : PieceDict) (k : Z) : Result PieceDict :=
  if dict_mem d k then Ok (dict_pop_default d k) else Raise KeyError.

(** [d[k] = v]: in place when the key exists, appended otherwise. *)
Fixpoint dict_set (d : PieceDict) (k : Z) (v : option Piece) : PieceDict :=
  match d with
  | [] => [(k, v)]
  | e :: d' => if fst e =? k then (k, v) :: d' else e :: dict_set d' k v
  end.

(** [piece in d.values()] *)
Definition in_values (piece : option Piece) (d : PieceDict) : bool :=
  existsb (fun e => Chess.opiece_eqb (snd e) piece) d.

Definition castle_rook_move (b : Chess.Board) (king_move : Chess.Move)
    : Result (option Chess.Move) :=
  rbind (attr (Chess.piece_at b (Chess.from_square king_move))) (fun p =>
  if PieceType_eqb (piece_type p) KING && Chess.is_castling b king_move then
    let to := Chess.to_square king_move in
    if to =? Chess.G1 then (* White kingside *)
      Ok (Some (Chess.mkMove Chess.H1 Chess.F1 None))
    else if to =? Chess.C1 then (* White queenside *)
      Ok (Some (Chess.mkMove Chess.A1 Chess.D1 None))
    else if to =? Chess.G8 then (* Black kingside *)
      Ok (Some (Chess.mkMove Chess.H8 Chess.F8 None))
    else if to =? Chess.C8 then (* Black queenside *)
      Ok (Some (Chess.mkMove Chess.A8 Chess.D8 None))
    else Ok None
  else Ok None).

Definition en_passant_captured (move : Chess.Move) : Z :=
  (* Determine the direction of the pawn's movement to find the captured
     pawn's location *)
  let direction :=
    if Chess.to_square move >? Chess.from_square move then -8 else 8 in
  Chess.to_square move + direction.

Definition is_en_passant (b : Chess.Board) (move : Chess.Move) : Result bool :=
  rbind (attr (Chess.piece_at b (Chess.from_square move))) (fun p =>
  if PieceType_eqb (piece_type p) PAWN then
    let d := Z.abs (Chess.from_square move - Chess.to_square move) in
    if ((d =? 7) || (d =? 9)) && negb (Chess.occupied b (Chess.to_square move))
    then Ok true
    else Ok false
  else Ok false).


(** The squares whose piece is gone ([prev_piece is not None and curr_piece
    is None]), in the order of [chess.SQUARES]. *)
Definition dissapeared (prev_board current_board : Chess.Board) : list Z :=
  List.filter
    (fun square =>
       let prev_piece := Chess.piece_at prev_board square in
       let curr_piece := Chess.piece_at current_board square in
       negb (Chess.opiece_eqb prev_piece curr_piece)
       && (Chess.occupied prev_board square
           && negb (Chess.occupied current_board square)))
    Chess.SQUARES.

(** The other squares that differ (new piece or captured). *)
Definition appeared (prev_board current_board : Chess.Board) : list Z :=
  List.filter
    (fun square =>
       let prev_piece := Chess.piece_at prev_board square in
       let curr_piece := Chess.piece_at current_board square in
       negb (Chess.opiece_eqb prev_piece curr_piece)
       && negb (Chess.occupied prev_board square
                && negb (Chess.occupied current_board square)))
    Chess.SQUARES.

(** [chess.square_rank(square) in (0, 7)] *)
Definition on_edge_rank (square : Z) : bool :=
  (Chess.square_rank square =? 0) || (Chess.square_rank square =? 7).

(** The branch [len(dissapeared) == 1 and len(appeared) == 1]. *)
Definition identify_simple (prev_board current_board : Chess.Board)
    (d a : Z) : Result (option Chess.Move) :=
  let move := Chess.mkMove d a None in
  (* En passant exception *)
  rbind (is_en_passant prev_board move) (fun ep =>
  if ep then Ok None else
  (* Castling exception *)
  if Chess.is_castling prev_board move then Ok None else
  (* Check for promotion *)
  rbind (attr (Chess.piece_at prev_board (Chess.from_square move))) (fun moved =>
  if PieceType_eqb (piece_type moved) PAWN
     && on_edge_rank (Chess.to_square move)
  then
    let promotion_piece := Chess.piece_at current_board (Chess.to_square move) in
    (* Validate promotion piece *)
    match promotion_piece with
    | None => Ok None
    | Some promotion_piece =>
        rbind (attr (Chess.piece_at prev_board (Chess.from_square move))) (fun moved =>
        if negb (Color_eqb (color moved) (color promotion_piece)) then Ok None
        else Ok (Some (Chess.mkMove d a (Some (piece_type promotion_piece)))))
    end
  else Ok (Some move))).

(** The branch [len(dissapeared) == 2 and len(appeared) == 2]. *)
Definition identify_castling (prev_board current_board : Chess.Board)
    (d0 d1 a0 a1 : Z) : Result (option Chess.Move) :=
  rbind (attr (Chess.piece_at prev_board d0)) (fun p0 =>
  let dis := if negb (PieceType_eqb (piece_type p0) KING) then (d1, d0) else (d0, d1) in
  rbind (attr (Chess.piece_at current_board a0)) (fun q0 =>
  let app := if negb (PieceType_eqb (piece_type q0) KING) then (a1, a0) else (a0, a1) in
  let king_move := Chess.mkMove (fst dis) (fst app) None in
  let rook_move := Chess.mkMove (snd dis) (snd app) None in
  if negb (Chess.is_castling prev_board king_move) then Ok None else
  (* Rook checks *)
  rbind (attr (Chess.piece_at prev_board (Chess.from_square king_move))) (fun k =>
  let expected_rook := Some (mkPiece ROOK (color k)) in
  if negb (Chess.opiece_eqb (Chess.piece_at prev_board (Chess.from_square rook_move)) expected_rook)
     || negb (Chess.opiece_eqb (Chess.piece_at current_board (Chess.to_square rook_move)) expected_rook)
  then Ok None else
  rbind (castle_rook_move prev_board king_move) (fun expected_move =>
  match expected_move with
  | Some m => if Chess.Move_eqb rook_move m then Ok (Some king_move) else Ok None
  | None => Ok None
  end)))).

(** The branch [len(dissapeared) == 2 and len(appeared) == 1]. *)
Definition identify_en_passant (prev_board : Chess.Board)
    (d0 d1 a0 : Z) : Result (option Chess.Move) :=
  let pawn_move_to := a0 in
  let found :=
    if Chess.is_en_passant prev_board (Chess.mkMove d0 pawn_move_to None)
    then Some (d0, d1)
    else if Chess.is_en_passant prev_board (Chess.mkMove d1 pawn_move_to None)
    then Some (d1, d0)
    else None in
  match found with
  | Some (pawn_move_from, en_passant_square) =>
      let move := Chess.mkMove pawn_move_from pawn_move_to None in
      if negb (en_passant_captured move =? en_passant_square) then Ok None
      else Ok (Some move)
  | None => Ok None
  end.

(** Don't forget to validate move afterwards before using it *)
Definition identify_move (prev_board current_board : Chess.Board)
    : Result (option Chess.Move) :=
  match dissapeared prev_board current_board,
        appeared prev_board current_board with
  | [d], [a] => identify_simple prev_board current_board d a
  | [d0; d1], [a0; a1] => identify_castling prev_board current_board d0 d1 a0 a1
  | [d0; d1], [a0] => identify_en_passant prev_board d0 d1 a0
  | _, _ => Ok None
  end.

(** The squares of the relocations of a record, in order. *)
Definition squares (l : list Relocation) : list (Z * Z) :=
  map (fun r => (rel_from r, rel_to r)) l.

(** The en passant geometry of a candidate move from [d] to [a]: a pawn
    moves diagonally by one square onto an empty square. *)
Definition en_passant_geometry (prev_board : Chess.Board) (d a : Z) : bool :=
  Chess.type_on prev_board PAWN d
  && (let k := Z.abs (d - a) in (k =? 7) || (k =? 9))
  && negb (Chess.occupied prev_board a).

(** The outcome of the one-vacated, one-occupied case in the words of the
    design document: none if the candidate move has en passant or castling
    geometry on the previous snapshot; otherwise, for a pawn that reaches a
    last rank, none unless the destination piece exists in the current
    snapshot and has the pawn's colour, and then the move with that piece's
    type as the promotion; otherwise the move without promotion. *)
Definition simple_move_spec (prev_board current_board : Chess.Board)
    (d a : Z) : option Chess.Move :=
  if en_passant_geometry prev_board d a
     || Chess.is_castling prev_board (Chess.mkMove d a None)
  then None
  else if Chess.type_on prev_board PAWN d && on_edge_rank a then
    match Chess.piece_at current_board a with
    | Some q =>
        if Chess.color_on prev_board (color q) d
        then Some (Chess.mkMove d a (Some (piece_type q)))
        else None
    | None => None
    end
  else Some (Chess.mkMove d a None).

Section Robot.

(** The modules [robot] and [board] that movement.py imports are taken as
    given: the type of a square offset with its centre [SQUARE_CENTER], the
    command word [robot.form_command] builds, and the status
    [robot.issue_command] returns for the [n]-th command of a session. *)
Context {Offset : Type}.
Variable SQUARE_CENTER : Offset.
Variable robot_form_command : Z -> Z -> Offset -> Color -> Z.
Variable robot_issue_command : nat -> Z -> Response.

(** Modelled from the spec: the class [RealBoard] of board.py, which holds
    the logical occupancy (a [chess.Board]), an offset for each square and a
    perspective flag. *)
Record RealBoard := mkRealBoard {
  chess_board : Chess.Board;
  offsets : Z -> Offset;
  perspective : Color
}.

(** Modelled from the spec: [RealBoard.piece_at] reads the logical occupancy. *)
Definition rb_piece_at (b : RealBoard) (square : Z) : option Piece :=
  Chess.piece_at (chess_board b) square.

(** Modelled from the spec: [RealBoard.offset] reads the offset table. *)
Definition rb_offset (b : RealBoard) (square : Z) : Offset := offsets b square.

(** Modelled from the spec: [RealBoard.set_offset] writes one entry of the
    offset table. *)
Definition rb_set_offset (b : RealBoard) (square : Z) (o : Offset) : RealBoard :=
  mkRealBoard (chess_board b)
              (fun s => if s =? square then o else offsets b s)
              (perspective b).

(** The mutable state a call works on: the board object and the commands
    issued on the link so far. *)
Record World := mkWorld {
  board : RealBoard;
  sent : list Relocation
}.

(** Computations that read and write the world and may raise. *)
Definition M (A : Type) : Type := World -> Result A * World.

Definition ret {A} (a : A) : M A := fun w => (Ok a, w).

Definition raise {A} (e : Exn) : M A := fun w => (Raise e, w).

Definition bind {A B} (c : M A) (k : A -> M B) : M B :=
  fun w =>
    match c w with
    | (Ok a, w') => k a w'
    | (Raise e, w') => (Raise e, w')
    end.

Definition lift {A} (r : Result A) : M A := fun w => (r, w).

Definition get_board : M RealBoard := fun w => (Ok (board w), w).

Definition put_board (b : RealBoard) : M unit :=
  fun w => (Ok tt, mkWorld b (sent w)).

(** [robot.issue_command(command)]; the squares are kept for the record. *)
Definition issue (from_square to_square command : Z) : M Response :=
  fun w =>
    let response := robot_issue_command (length (sent w)) command in
    (Ok response,
     mkWorld (board w)
             (sent w ++ [mkRelocation from_square to_square command response])).

Notation "x <- c ;; k" := (bind c (fun x => k))
  (at level 100, c at next level, right associativity).

(** Assume move is valid, call before pushing move in memory! *)
Definition move_piece (from_square to_square : Z) (prev_response : Response)
    : M Response :=
  match prev_response with
  | COMMAND_SUCCESS =>
      b <- get_board ;;
      let offset := rb_offset b from_square in
      let command :=
        robot_form_command from_square to_square offset (perspective b) in
      response <- issue from_square to_square command ;;
      match response with
      | COMMAND_SUCCESS =>
          (* Update board offsets *)
          _ <- (if real_square from_square
                then b <- get_board ;; put_board (rb_set_offset b from_square SQUARE_CENTER)
                else ret tt) ;;
          _ <- (if real_square to_square
                then b <- get_board ;; put_board (rb_set_offset b to_square SQUARE_CENTER)
                else ret tt) ;;
          ret response
      | COMMAND_FAILURE => ret response
      end
  | COMMAND_FAILURE => ret prev_response
  end.

(** [robot.off_board_square(piece_type, color)]: the slot function of the
    communication module with its default perspective. *)
Definition off_board_place (p : Piece) : Z :=
  Comm.off_board_square (piece_type p) (color p) WHITE.

(** [board.piece_at(square)] followed by reading [piece_type] and [color]. *)
Definition piece_attrs (square : Z) : M Piece :=
  b <- get_board ;; lift (attr (rb_piece_at b square)).

(** Makes move physically, does not save the move in board *)
Definition reflect_move (move : Chess.Move) : M Response :=
  let response := COMMAND_SUCCESS in
  let from_square := Chess.from_square move in
  let to_square := Chess.to_square move in
  b <- get_board ;;
  if Chess.is_castling (chess_board b) move then
    rook_move <- lift (castle_rook_move (chess_board b) move) ;;
    match rook_move with
    | Some rook_move =>
        if Chess.Move_bool rook_move then
          response <- move_piece from_square to_square response ;;
          response <- move_piece (Chess.from_square rook_move)
                                 (Chess.to_square rook_move) response ;;
          ret response
        else ret COMMAND_FAILURE
    | None => ret COMMAND_FAILURE
    end
  else (* Regular moves *)
    response <-
      (b <- get_board ;;
       if Chess.is_capture (chess_board b) move then
         captured_piece <- piece_attrs to_square ;;
         (* Remove captured piece *)
         move_piece to_square (off_board_place captured_piece) response
       else ret response) ;;
    response <-
      (b <- get_board ;;
       if Chess.is_en_passant (chess_board b) move then
         let captured_square := en_passant_captured move in
         captured_piece <- piece_attrs captured_square ;;
         (* Remove captured piece *)
         move_piece captured_square (off_board_place captured_piece) response
       else ret response) ;;
    moving <-
      (match Chess.promotion move with
       | Some promoted =>
           removed_piece <- piece_attrs (Chess.from_square move) ;;
           let off_board_place_removed := off_board_place removed_piece in
           let off_board_place_promoted :=
             Comm.off_board_square promoted (color removed_piece) WHITE in
           (* Remove original piece off the board *)
           response <- move_piece from_square off_board_place_removed response ;;
           (* Set new piece to be moved *)
           ret (off_board_place_promoted, response)
       | None => ret (from_square, response)
       end) ;;
    let from_square := fst moving in
    let response := snd moving in
    response <- move_piece from_square to_square response ;;
    ret response.


(** [{square: board.piece_at(square) for square in chess.SQUARES
      if board.piece_at(square)}] *)
Definition positions (b : RealBoard) : PieceDict :=
  flat_map
    (fun square =>
       match rb_piece_at b square with
       | Some p => [(square, Some p)]
       | None => []
       end)
    Chess.SQUARES.

(** The three dictionaries and the list the passes of [iter_reset_board]
    work on, after the correctly placed squares are removed. *)
Record Plan := mkPlan {
  current_positions : PieceDict;
  expected_positions : PieceDict;
  empty_squares : list Z
}.

Definition make_plan (b expected_board : RealBoard) : Plan :=
  (* Create mappings for current and expected piece positions *)
  let current_positions := positions b in
  let expected_positions := positions expected_board in
  (* Find pieces that are correctly placed, to avoid unnecessary moves *)
  let correctly_placed :=
    List.filter
      (fun e => Chess.opiece_eqb (dict_get current_positions (fst e)) (snd e))
      expected_positions in
  (* Remove correctly placed pieces from current and expected mappings *)
  let current_positions :=
    fold_left dict_pop_default (map fst correctly_placed) current_positions in
  let expected_positions :=
    fold_left dict_pop_default (map fst correctly_placed) expected_positions in
  (* Use list to track empty squares on the board *)
  let empty_squares :=
    List.filter
      (fun square => negb (dict_mem current_positions square)
                     && negb (dict_mem expected_positions square))
      Chess.SQUARES in
  mkPlan current_positions expected_positions empty_squares.

(** Helper function to move a piece and update mappings *)
Definition move_piece_and_update (pl : Plan) (start_square end_square : Z)
    : M (Response * Plan) :=
  b <- get_board ;;
  let piece := rb_piece_at b start_square in
  response <- move_piece start_square end_square COMMAND_SUCCESS ;;
  match response with
  | COMMAND_FAILURE => ret (response, pl)
  | COMMAND_SUCCESS =>
      current_positions <- lift (dict_pop (current_positions pl) start_square) ;;
      let current_positions := dict_set current_positions end_square piece in
      let expected_positions :=
        if dict_mem (expected_positions pl) end_square
           && Chess.opiece_eqb (dict_get (expected_positions pl) end_square) piece
        then dict_pop_default (expected_positions pl) end_square
        else expected_positions pl in
      ret (COMMAND_SUCCESS,
           mkPlan current_positions expected_positions (empty_squares pl))
  end.

(** First pass: the first expected [(square, piece)] whose piece stands on
    some unmatched current square, with the first such current square. *)
Fixpoint first_pass (current : PieceDict) (expected_items : PieceDict)
    : option (Z * Z) :=
  match expected_items with
  | [] => None
  | (square, piece) :: rest =>
      if in_values piece current then
        match find (fun e => Chess.opiece_eqb (snd e) piece) current with
        | Some (start_square, _) => Some (start_square, square)
        | None => first_pass current rest
        end
      else first_pass current rest
  end.

(** Second pass: the first unmatched current piece that no expected square
    needs, sent to the first empty square (when there is one). *)
Fixpoint second_pass (expected : PieceDict) (empty : list Z)
    (current_items : PieceDict) : option (Z * Z) :=
  match current_items with
  | [] => None
  | (start_square, piece) :: rest =>
      if negb (in_values piece expected) then
        match empty with
        | temp_square :: _ => Some (start_square, temp_square)
        | [] => second_pass expected empty rest
        end
      else second_pass expected empty rest
  end.

(** Third pass: the origin of the piece for the first expected square, a
    current square holding it or else its off-board slot. *)
Definition third_pass_origin (current : PieceDict) (piece : option Piece)
    : Result Z :=
  match find (fun e => Chess.opiece_eqb (snd e) piece) current with
  | Some (temp_square, _) => Ok temp_square
  | None => rbind (attr piece) (fun p => Ok (off_board_place p))
  end.

(** Resets the board to match the expected_board configuration. *)
Definition iter_reset_board (expected_board : RealBoard) : M (Response * bool) :=
  b <- get_board ;;
  let pl := make_plan b expected_board in
  (* First pass: move pieces directly to their target positions if possible *)
  match first_pass (current_positions pl) (expected_positions pl) with
  | Some (start_square, square) =>
      r <- move_piece_and_update pl start_square square ;;
      ret (fst r, false)
  | None =>
  (* Second pass: move remaining pieces out of the way, using empty squares
     as intermediate holding spots *)
  match second_pass (expected_positions pl) (empty_squares pl) (current_positions pl) with
  | Some (start_square, temp_square) =>
      r <- move_piece_and_update
             (mkPlan (current_positions pl) (expected_positions pl)
                     (tl (empty_squares pl)))
             start_square temp_square ;;
      ret (fst r, false)
  | None =>
  (* Third pass: place pieces in their final positions from temporary spots
     or off-board *)
  match expected_positions pl with
  | (square, piece) :: _ =>
      origin_square <- lift (third_pass_origin (current_positions pl) piece) ;;
      r <- move_piece_and_update pl origin_square square ;;
      ret (fst r, false)
  | [] =>
      b <- get_board ;;
      _ <- put_board (mkRealBoard (chess_board expected_board) (offsets b)
                                  (perspective expected_board)) ;;
      ret (COMMAND_SUCCESS, true)
  end end end.

(** The piece an off-board slot stores (the inverse of
    [robot.off_board_square] with its default perspective). *)
Definition slot_piece (slot : Z) : option Piece :=
  find (fun p => off_board_place p =? slot)
       (flat_map (fun t => [mkPiece t WHITE; mkPiece t BLACK])
                 [ROOK; BISHOP; KNIGHT; QUEEN; KING; PAWN]).

(** Modelled from the spec: the external confirmation of one relocation.
    The design has the occupancy advanced outside this component, once per
    confirmed relocation: the piece leaves its origin (a square or a slot)
    and stands on the destination (or is stored, when that is a slot). *)
Definition confirm_relocation (cb : Chess.Board) (r : Relocation) : Chess.Board :=
  match rel_response r with
  | COMMAND_FAILURE => cb
  | COMMAND_SUCCESS =>
      let moved :=
        if real_square (rel_from r) then Chess.piece_at cb (rel_from r)
        else slot_piece (rel_from r) in
      let lifted := delete (rel_from r) (Chess.pieces cb) in
      let placed :=
        if real_square (rel_to r) then
          match moved with
          | Some p => <[rel_to r := p]> lifted
          | None => lifted
          end
        else lifted in
      Chess.mkBoard placed (Chess.turn cb) (Chess.ep_square cb)
  end.

(** One call of [iter_reset_board] followed by the external confirmation of
    the relocations it issued. *)
Definition reset_call (expected_board : RealBoard) (w : World)
    : Result (Response * bool) * World :=
  let '(res, w') := iter_reset_board expected_board w in
  let issued := skipn (length (sent w)) (sent w') in
  let cb := fold_left confirm_relocation issued (chess_board (board w')) in
  (res, mkWorld (mkRealBoard cb (offsets (board w')) (perspective (board w')))
                (sent w')).

(** The world after [n] calls, each one confirmed. *)
Fixpoint reset_calls (expected_board : RealBoard) (n : nat) (w : World) : World :=
  match n with
  | O => w
  | S n' => snd (reset_call expected_board (reset_calls expected_board n' w))
  end.

(** What call number [n] (from 0) returns. *)
Definition nth_reset_call (expected_board : RealBoard) (n : nat) (w : World)
    : Result (Response * bool) :=
  fst (reset_call expected_board (reset_calls expected_board n w)).


(** Every relocation of the list was acknowledged. *)
Definition all_acknowledged (l : list Relocation) : Prop :=
  Forall (fun r => rel_response r = COMMAND_SUCCESS) l.

(** The state of a chain of [move_piece] calls started in world [w0], when
    the status threaded through the chain is [response] and the world is
    [w]: the occupancy is the one of [w0]; while the status is a success
    every command issued since [w0] was acknowledged; once it is a failure
    the last command issued is the only one that failed. *)
Definition chained (w0 : World) (response : Response) (w : World) : Prop :=
  chess_board (board w) = chess_board (board w0)
  /\ exists issued,
       sent w = sent w0 ++ issued
       /\ match response with
          | COMMAND_SUCCESS => all_acknowledged issued
          | COMMAND_FAILURE =>
              exists pre r,
                issued = pre ++ [r]
                /\ all_acknowledged pre
                /\ rel_response r = COMMAND_FAILURE
          end.

End Robot.

End Movement.

(** ** Concrete robots, boards and environments used in the examples *)

Module Scenario.

Import Movement.

(** Offsets as pairs of fractions, the centre of a square being (0, 0). *)
Definition center : Q * Q := (0%Q, 0%Q).

(** The command codec of the communication module on a 2D offset. *)
Definition codec (from_square to_square : Z) (o : Q * Q) (perspective : Color) : Z :=
  Comm.form_command from_square to_square (fst o) (snd o) perspective.

(** A link on which every command is acknowledged. *)
Definition link_ok : nat -> Z -> Response := fun _ _ => COMMAND_SUCCESS.

(** A link on which no command is acknowledged. *)
Definition link_dead : nat -> Z -> Response := fun _ _ => COMMAND_FAILURE.

Definition white (t : PieceType) : Piece := mkPiece t WHITE.
Definition black (t : PieceType) : Piece := mkPiece t BLACK.

(** A board object with every offset centred, seen from White's side. *)
Definition real_board (l : list (Z * Piece)) (to_move : Color) (ep : option Z)
    : RealBoard (Offset := Q * Q) :=
  mkRealBoard (Chess.mkBoard (list_to_map l) to_move ep)
                       (fun _ => center) WHITE.

(** Occupancies: the kings on e1 and e8 alone, with a white rook on b1,
    with a white rook on a1. *)
Definition kings_only : gmap Z Piece :=
  list_to_map [(4, white KING); (60, black KING)].
Definition with_rook_b1 : gmap Z Piece :=
  list_to_map [(4, white KING); (60, black KING); (1, white ROOK)].
Definition with_rook_a1 : gmap Z Piece :=
  list_to_map [(4, white KING); (60, black KING); (0, white ROOK)].

(** A board object with every offset centred, seen from White's side,
    White to move. *)
Definition board_of (occupancy : gmap Z Piece) : RealBoard (Offset := Q * Q) :=
  mkRealBoard (Chess.mkBoard occupancy WHITE None) (fun _ => center) WHITE.

(** Kings on e1 and e8 and a white rook on b1. *)
Definition rook_b1 := board_of with_rook_b1.

(** Kings on e1 and e8 only. *)
Definition bare_kings := board_of kings_only.

(** Kings on e1 and e8 and a white rook on a1. *)
Definition rook_a1 := board_of with_rook_a1.

(** White pawn e5, black pawn d5 that has just advanced two squares (en
    passant square d6), White to move; the move e5xd6 en passant. *)
Definition en_passant_board :=
  real_board [(4, white KING); (60, black KING); (36, white PAWN); (35, black PAWN)]
             WHITE (Some 43).
Definition en_passant_move := Chess.mkMove 36 43 None.

(** White rook a1 takes the black knight on a5, White to move. *)
Definition capture_board :=
  real_board [(4, white KING); (60, black KING); (0, white ROOK); (32, black KNIGHT)]
             WHITE None.
Definition capture_move := Chess.mkMove 0 32 None.

(** The kings and a white pawn on e2, every piece a quarter of a square off
    its centre. *)
Definition nudged : RealBoard (Offset := Q * Q) :=
  mkRealBoard
    (Chess.mkBoard (list_to_map [(4, white KING); (60, black KING); (12, white PAWN)])
                   WHITE None)
    (fun _ => (1 # 4, - (1 # 4))%Q) WHITE.

(** Before and after e2-e4 with only kings and the pawn on the board. *)
Definition before_e4 :=
  Chess.mkBoard (list_to_map [(4, white KING); (60, black KING); (12, white PAWN)]) WHITE None.
Definition after_e4 :=
  Chess.mkBoard (list_to_map [(4, white KING); (60, black KING); (28, white PAWN)]) BLACK (Some 20).

(** A clock that advances a tenth of a second between two readings, and a
    response line that reads low from sample [k] on. *)
Definition tenths (k : nat) : Comm.Env :=
  Comm.mkEnv (fun i => inject_Z (Z.of_nat i) * (1 # 10))%Q
             (fun j => if (j <? k)%nat then 1 else 0).

(** A clock whose second reading comes 50 ms after the first and the third
    10 ms later, and a line that is low at once. *)
Definition glitch : Comm.Env :=
  Comm.mkEnv (fun i => match i with O => 0 | 1%nat => 5 # 100 | _ => 6 # 100 end)%Q
             (fun _ => 0).

(** A clock that advances six seconds between two readings (a stalled
    process) and a response line that never reads low. *)
Definition silent : Comm.Env :=
  Comm.mkEnv (fun i => inject_Z (Z.of_nat i) * (6 # 1))%Q (fun _ => 1).

(** A line that is low at the first sample, taken when the loop guard has
    read 9.9 s; the elapsed time computed after the sample is 10.5 s. *)
Definition late_ack : Comm.Env :=
  Comm.mkEnv (fun i => match i with O => 0 | 1%nat => 99 # 10 | _ => 105 # 10 end)%Q
             (fun _ => 0).

(** A run on which nothing takes time but the sleeps, each of exactly
    [DELAY_WAIT_S]: the first guard reads the start time, every later guard
    a tenth of a second more than the one before; the line never reads
    low. *)
Definition steady : Comm.Env :=
  Comm.mkEnv (fun i => inject_Z (Z.of_nat (pred i)) * (1 # 10))%Q (fun _ => 1).

(** White king e1, white rook h1, black king e8, White to move; castling
    short written as king to g1, and written as king onto its rook. *)
Definition castle_board :=
  real_board [(4, white KING); (7, white ROOK); (60, black KING)] WHITE None.
Definition castle_short := Chess.mkMove 4 6 None.
Definition castle_onto_rook := Chess.mkMove 4 7 None.

(** The occupancy after castling short on [castle_board]. *)
Definition after_castle :=
  Chess.mkBoard (list_to_map [(6, white KING); (5, white ROOK); (60, black KING)])
                BLACK None.

(** White pawn g7 takes the black rook on h8 and promotes to a queen. *)
Definition promotion_board :=
  real_board [(4, white KING); (60, black KING); (54, white PAWN); (63, black ROOK)]
             WHITE None.
Definition promotion_move := Chess.mkMove 54 63 (Some QUEEN).

(** The occupancy after e5xd6 en passant on [en_passant_board]. *)
Definition after_en_passant :=
  Chess.mkBoard (list_to_map [(4, white KING); (60, black KING); (43, white PAWN)])
                BLACK None.

(** Before and after e7-e8=Q, the black king on a8. *)
Definition before_promotion :=
  Chess.mkBoard (list_to_map [(4, white KING); (56, black KING); (52, white PAWN)])
                WHITE None.
Definition after_promotion :=
  Chess.mkBoard (list_to_map [(4, white KING); (56, black KING); (60, white QUEEN)])
                BLACK None.

End Scenario.

(** * Properties of the communication module *)

Section CommFacts.

Import Comm.

Lemma Qltb_lt (a b : Q) : Qltb a b = true <-> (a < b)%Q.
Proof.
  unfold Qltb. rewrite negb_true_iff. split; intros H.
  - apply Qnot_le_lt. intros Hle. apply Qle_bool_iff in Hle. congruence.
  - destruct (Qle_bool b a) eqn:E; [|reflexivity].
    apply Qle_bool_iff in E. exfalso. apply (Qlt_not_le _ _ H E).
Qed.

Lemma Qltb_ge (a b : Q) : Qltb a b = false <-> (b <= a)%Q.
Proof.
  unfold Qltb. rewrite negb_false_iff. apply Qle_bool_iff.
Qed.

(** The masked, shifted bit is the bit of the command at that position. *)
Lemma land_shiftr_bit (c n : Z) :
  0 <= n -> Z.land (Z.shiftr c n) 1 = Z.b2z (Z.testbit c n).
Proof.
  intros Hn. change 1 with (Z.ones 1) at 1.
  rewrite Z.land_ones by lia. change (2 ^ 1) with 2.
  rewrite <- Z.bit0_mod. rewrite Z.shiftr_spec by lia. reflexivity.
Qed.

Lemma send_bit_spec (c bit : Z) :
  0 <= bit <= 15 ->
  send_bit c bit =
  [SetDat (Z.b2z (Z.testbit c (15 - bit)));
   SetClk 1; Sleep (2 # 10); SetClk 0; Sleep (2 # 10)].
Proof.
  intros Hb. unfold send_bit. rewrite land_shiftr_bit by lia.
  destruct (Z.testbit c (15 - bit)); reflexivity.
Qed.

End CommFacts.

Lemma flat_map_ext_In {A B} (f g : A -> list B) (l : list A) :
  (forall a, In a l -> f a = g a) -> flat_map f l = flat_map g l.
Proof.
  induction l as [|a l IH]; intros H; simpl; [reflexivity|].
  rewrite (H a) by (left; reflexivity).
  rewrite IH; [reflexivity|]. intros b Hb. apply H. right. exact Hb.
Qed.

(** C1, as stated, fails: for the 32-bit command 0x80000000 the data line is
    not driven with bits 31 down to 16 of the command (bit 31 is set, yet
    the first value driven is 0). *)
Lemma issue_command_top_bits_counterexample :
  Comm.dat_values (Comm.issue_command_lines 0x80000000)
  <> map (fun i => Z.b2z (Z.testbit 0x80000000 (31 - Z.of_nat i))) Comm.cycles.
Proof. vm_compute. discriminate. Qed.

(** The line events of a transmission, cycle by cycle. *)
Lemma issue_command_lines_cycles (c : Z) :
  Comm.issue_command_lines c =
    flat_map (fun i => [Comm.SetDat (Z.b2z (Z.testbit c (15 - Z.of_nat i)));
                        Comm.SetClk 1; Comm.Sleep (2 # 10);
                        Comm.SetClk 0; Comm.Sleep (2 # 10)]) Comm.cycles
    ++ [Comm.Sleep (2 # 10)].
Proof.
  unfold Comm.issue_command_lines, Comm.cycles. f_equal.
  apply flat_map_ext_In. intros i Hi. apply in_seq in Hi.
  apply send_bit_spec. lia.
Qed.

Lemma dat_values_low_bits (c : Z) :
  Comm.dat_values (Comm.issue_command_lines c)
  = map (fun i => Z.b2z (Z.testbit c (15 - Z.of_nat i))) Comm.cycles.
Proof. rewrite issue_command_lines_cycles. reflexivity. Qed.

(** C1, amended: for every command [c], [issue_command] drives exactly
    sixteen (data-set, clock-pulse) cycles, and the bit driven on the data
    line in cycle [i] is bit [15 - i] of [c]: the sixteen least-significant
    bits, most-significant of them first. *)
Theorem issue_command_sends_low_16_bits (c : Z) :
  Comm.issue_command_lines c =
    flat_map (fun i => [Comm.SetDat (Z.b2z (Z.testbit c (15 - Z.of_nat i)));
                        Comm.SetClk 1; Comm.Sleep (2 # 10);
                        Comm.SetClk 0; Comm.Sleep (2 # 10)]) Comm.cycles
    ++ [Comm.Sleep (2 # 10)]
  /\ Comm.dat_values (Comm.issue_command_lines c)
     = map (fun i => Z.b2z (Z.testbit c (15 - Z.of_nat i))) Comm.cycles
  /\ Comm.clk_pulses (Comm.issue_command_lines c) = 16%nat.
Proof.
  split; [apply issue_command_lines_cycles|].
  split; [apply dat_values_low_bits|].
  rewrite issue_command_lines_cycles. reflexivity.
Qed.

(** The data bits do not depend on bits 16 and above of the command: the
    from-square and offset-x fields never reach the wire. *)
Lemma issue_command_ignores_high_bits (c : Z) :
  Comm.dat_values (Comm.issue_command_lines c)
  = Comm.dat_values (Comm.issue_command_lines (Z.land c 0xFFFF)).
Proof.
  rewrite !dat_values_low_bits.
  apply map_ext_in. intros i Hi. apply in_seq in Hi.
  change 0xFFFF with (Z.ones 16). f_equal.
  rewrite Z.land_spec, Z.testbit_ones_nonneg by lia.
  replace (15 - Z.of_nat i <? 16) with true by (symmetry; apply Z.ltb_lt; lia).
  now rewrite andb_true_r.
Qed.

(** C2: the code mirrors the wrong squares under the black perspective.
    With from-square 1 and to-square 2 (both on the board) nothing is
    mirrored, so the command differs from the white-perspective command of
    the mirrored squares 62 and 61; and the off-board slot -1 is mirrored to
    64 instead of being left alone (0xFF). *)
Theorem form_command_black_mirror_slip :
  Comm.form_command 1 2 0 0 BLACK = 0x01000002
  /\ Comm.form_command (63 - 1) (63 - 2) (- 0) (- 0) WHITE = 0x3E00003D
  /\ Comm.form_command 1 2 0 0 BLACK
     <> Comm.form_command (63 - 1) (63 - 2) (- 0) (- 0) WHITE
  /\ Comm.form_command (-1) 2 0 0 BLACK = 0x40000002
  /\ Comm.form_command (-1) 2 0 0 WHITE = 0xFF000002.
Proof. vm_compute. repeat split; discriminate. Qed.

(** Which squares the black perspective mirrors: those the guard
    [0 >= square <= 63] lets through, that is square 0 and every negative
    square; squares 1 to 63 are left as they are. *)
Lemma mirror_guard_spec (square : Z) :
  Comm.mirror_guard square = (square <=? 0).
Proof.
  unfold Comm.mirror_guard.
  destruct (Z.leb_spec square 0), (Z.geb_spec 0 square), (Z.leb_spec square 63);
    simpl; try reflexivity; lia.
Qed.

(** With centred offsets, the black-perspective command is the
    white-perspective command of the squares the guard lets through,
    mirrored. *)
Lemma form_command_black_centered (from_square to_square : Z) :
  Comm.form_command from_square to_square 0 0 BLACK
  = Comm.form_command
      (if from_square <=? 0 then 63 - from_square else from_square)
      (if to_square <=? 0 then 63 - to_square else to_square)
      0 0 WHITE.
Proof.
  unfold Comm.form_command. rewrite !mirror_guard_spec. reflexivity.
Qed.

(** C6: for each perspective [off_board_square] sends the twelve (piece
    type, colour) pairs one-to-one onto the slots -1 .. -12, and under the
    black perspective a pair gets the white-perspective slot of the same
    piece type in the other colour (the two groups of six are swapped). *)
Theorem off_board_square_bijection_swap :
  (forall perspective t c,
      -12 <= Comm.off_board_square t c perspective <= -1)
  /\ (forall perspective t c t' c',
         Comm.off_board_square t c perspective
         = Comm.off_board_square t' c' perspective ->
         t = t' /\ c = c')
  /\ (forall perspective s, -12 <= s <= -1 ->
         exists t c, Comm.off_board_square t c perspective = s)
  /\ (forall t c,
         Comm.off_board_square t c BLACK
         = Comm.off_board_square t (opposite c) WHITE)
  /\ (forall t c,
         Comm.off_board_square t c WHITE
         = Comm.off_board_square t (opposite c) BLACK).
Proof.
  repeat split.
  - destruct perspective, t, c; vm_compute; discriminate.
  - destruct perspective, t, c; vm_compute; discriminate.
  - destruct perspective, t, c, t', c'; vm_compute in H; congruence.
  - destruct perspective, t, c, t', c'; vm_compute in H; congruence.
  - intros perspective s Hs.
    assert (Hcases : s = -1 \/ s = -2 \/ s = -3 \/ s = -4 \/ s = -5 \/ s = -6
                     \/ s = -7 \/ s = -8 \/ s = -9 \/ s = -10 \/ s = -11
                     \/ s = -12) by lia.
    destruct perspective;
      repeat (destruct Hcases as [-> | Hcases]); try subst s;
      first
        [ exists ROOK, WHITE; reflexivity | exists BISHOP, WHITE; reflexivity
        | exists KNIGHT, WHITE; reflexivity | exists QUEEN, WHITE; reflexivity
        | exists KING, WHITE; reflexivity | exists PAWN, WHITE; reflexivity
        | exists ROOK, BLACK; reflexivity | exists BISHOP, BLACK; reflexivity
        | exists KNIGHT, BLACK; reflexivity | exists QUEEN, BLACK; reflexivity
        | exists KING, BLACK; reflexivity | exists PAWN, BLACK; reflexivity ].
  - destruct t, c; reflexivity.
  - destruct t, c; reflexivity.
Qed.

(** The slot -9 under the black perspective is the white knight's: the
    bijection and the swap of C6 at a concrete slot. *)
Lemma off_board_square_bijection_swap_witness :
  (exists t c, Comm.off_board_square t c BLACK = -9)
  /\ Comm.off_board_square KNIGHT WHITE BLACK
     = Comm.off_board_square KNIGHT BLACK WHITE.
Proof.
  destruct off_board_square_bijection_swap as (_ & _ & Hsurj & Hswap & _).
  split.
  - apply (Hsurj BLACK (-9)). lia.
  - apply (Hswap KNIGHT WHITE).
Defined.

(** *** The acknowledgment wait *)

Section WaitFacts.

Import Comm.

Variable env : Env.

(** While the guard holds and the line reads high the loop only sleeps. *)
Lemma wait_loop_polls (k fuel n : nat) :
  (forall j, (n <= j < n + k)%nat ->
             (guard_elapsed env j < DELAY_TIMEOUT_MAX_S)%Q /\ resp env j <> 0) ->
  wait_loop env (clock env 0) (k + fuel) n
  = wait_loop env (clock env 0) fuel (n + k).
Proof.
  revert n. induction k as [|k IH]; intros n H.
  - simpl. now rewrite Nat.add_0_r.
  - destruct (H n ltac:(lia)) as [Hg Hr].
    change (S k + fuel)%nat with (S (k + fuel)). cbn [wait_loop].
    apply Qltb_lt in Hg. unfold guard_elapsed in Hg. rewrite Hg.
    apply Z.eqb_neq in Hr. rewrite Hr.
    rewrite IH by (intros j Hj; apply H; lia).
    f_equal. lia.
Qed.

(** The line reads low at sample [n]: the wait returns at once. *)
Lemma wait_loop_low (fuel n : nat) :
  (guard_elapsed env n < DELAY_TIMEOUT_MAX_S)%Q ->
  resp env n = 0 ->
  wait_loop env (clock env 0) (S fuel) n
  = Some (mkWait (if Qltb (sample_elapsed env n) DELAY_TIMEOUT_MIN_S
                  then RESPONSE_TIMEOUT else RESPONSE_SUCCESS) (S n)).
Proof.
  intros Hg Hr. cbn [wait_loop].
  apply Qltb_lt in Hg. unfold guard_elapsed in Hg. rewrite Hg, Hr.
  cbn [Z.eqb]. unfold sample_elapsed.
  destruct (Qltb _ DELAY_TIMEOUT_MIN_S); reflexivity.
Qed.

(** The maximum has elapsed at the guard of iteration [n]. *)
Lemma wait_loop_expired (fuel n : nat) :
  (DELAY_TIMEOUT_MAX_S <= guard_elapsed env n)%Q ->
  wait_loop env (clock env 0) (S fuel) n = Some (mkWait RESPONSE_TIMEOUT n).
Proof.
  intros Hg. cbn [wait_loop].
  apply Qltb_ge in Hg. unfold guard_elapsed in Hg. now rewrite Hg.
Qed.

(** The wait up to the first sample that reads low or the first guard that
    fails, whichever iteration [n] that is. *)
Lemma wait_for_signal_reaches (fuel n : nat) :
  (n < fuel)%nat ->
  (forall j, (j < n)%nat ->
             (guard_elapsed env j < DELAY_TIMEOUT_MAX_S)%Q /\ resp env j <> 0) ->
  wait_for_signal env fuel = wait_loop env (clock env 0) (S (fuel - S n)) n.
Proof.
  intros Hn H. unfold wait_for_signal.
  replace fuel with (n + S (fuel - S n))%nat at 1 by lia.
  rewrite wait_loop_polls by (intros j Hj; apply H; lia).
  reflexivity.
Qed.

(** After [n] samples that read high the guard of iteration [n] sees at
    least [n] sleeps of [DELAY_WAIT_S]. *)
Lemma sleeps_elapsed :
  sleeps env ->
  forall n, (forall j, (j < n)%nat -> resp env j <> 0) ->
  (inject_Z (Z.of_nat n) * DELAY_WAIT_S <= guard_elapsed env n)%Q.
Proof.
  intros [H0 Hs]. unfold guard_elapsed. induction n as [|n IH]; intros Hhigh.
  - change (inject_Z (Z.of_nat 0)) with 0%Q. unfold DELAY_WAIT_S. lra.
  - specialize (IH ltac:(intros j Hj; apply Hhigh; lia)).
    specialize (Hs n (Hhigh n ltac:(lia))).
    rewrite Nat2Z.inj_succ. unfold Z.succ.
    rewrite inject_Z_plus. change (inject_Z 1) with 1%Q.
    unfold DELAY_WAIT_S in *. lra.
Qed.

(** A guard that holds after [n] samples that read high is one of the first
    hundred. *)
Lemma sleeps_guard_bound :
  sleeps env ->
  forall n, (forall j, (j < n)%nat -> resp env j <> 0) ->
  (guard_elapsed env n < DELAY_TIMEOUT_MAX_S)%Q -> (n < 100)%nat.
Proof.
  intros Hs n Hhigh Hg.
  pose proof (sleeps_elapsed Hs n Hhigh) as He.
  assert (Hlt : (inject_Z (Z.of_nat n) * DELAY_WAIT_S < DELAY_TIMEOUT_MAX_S)%Q)
    by (eapply Qle_lt_trans; eassumption).
  unfold DELAY_WAIT_S, DELAY_TIMEOUT_MAX_S in Hlt.
  destruct (Nat.lt_ge_cases n 100) as [|Hge]; [assumption|exfalso].
  assert (Hz : (inject_Z 100 <= inject_Z (Z.of_nat n))%Q).
  { rewrite <- Zle_Qle. lia. }
  change (inject_Z 100) with (100 # 1)%Q in Hz. lra.
Qed.

(** With such a clock the wait returns within a hundred and one
    iterations: a hundred guards can hold, the next one fails. *)
Lemma wait_loop_returns :
  sleeps env ->
  forall fuel n, (0 < fuel)%nat -> (101 <= fuel + n)%nat ->
  (forall j, (j < n)%nat -> resp env j <> 0) ->
  exists r, wait_loop env (clock env 0) fuel n = Some r.
Proof.
  intros Hs. induction fuel as [|fuel IH]; intros n Hpos Hsum Hhigh; [lia|].
  cbn [wait_loop].
  destruct (Qltb (clock env (S n) - clock env 0) DELAY_TIMEOUT_MAX_S) eqn:Hg;
    [|eauto].
  destruct (resp env n =? 0) eqn:Hr.
  - destruct (Qltb _ DELAY_TIMEOUT_MIN_S); eauto.
  - apply Qltb_lt in Hg. apply Z.eqb_neq in Hr.
    pose proof (sleeps_guard_bound Hs n Hhigh Hg) as Hn.
    apply IH; [lia|lia|].
    intros j Hj. destruct (Nat.eq_dec j n) as [->|]; [assumption|].
    apply Hhigh. lia.
Qed.

End WaitFacts.

(** With a clock on which every sleep takes its time, a wait with fuel for
    a hundred and one iterations returns a status. *)
Lemma wait_for_signal_total (env : Comm.Env) (fuel : nat) :
  Comm.sleeps env -> (101 <= fuel)%nat ->
  exists r, Comm.wait_for_signal env fuel = Some r.
Proof.
  intros Hs Hf. unfold Comm.wait_for_signal.
  apply wait_loop_returns; [assumption|lia|lia|].
  intros j Hj. lia.
Qed.

(** C5, as stated, fails: on the line [late_ack] the acknowledgment is
    first observed, at the first sample, with 10.5 s elapsed, more than
    [DELAY_TIMEOUT_MAX_S]: none is observed by the maximum.  The wait
    returns [RESPONSE_SUCCESS], not [RESPONSE_TIMEOUT]: the loop guard had
    read 9.9 s, and the elapsed time computed after the sample is compared
    with the minimum only. *)
Lemma wait_for_signal_late_ack_counterexample :
  Comm.resp Scenario.late_ack 0 = 0
  /\ (Comm.DELAY_TIMEOUT_MAX_S < Comm.sample_elapsed Scenario.late_ack 0)%Q
  /\ Comm.wait_for_signal Scenario.late_ack 5
     = Some (Comm.mkWait Comm.RESPONSE_SUCCESS 1)
  /\ option_map Comm.returned (Comm.wait_for_signal Scenario.late_ack 5)
     <> Some Comm.RESPONSE_TIMEOUT.
Proof.
  split; [reflexivity|]. split; [vm_compute; reflexivity|].
  split; [vm_compute; reflexivity|]. vm_compute. discriminate.
Qed.

(** C5, amended: let sample [n] be the first at which the wait stops
    polling (every earlier guard held and every earlier sample read high).
    If the guard of iteration [n] holds and the line reads low with an
    elapsed time, computed after the sample, below [DELAY_TIMEOUT_MIN_S],
    the wait returns [RESPONSE_TIMEOUT] (failure, noise).  If the guard
    holds and the line reads low with an elapsed time of at least
    [DELAY_TIMEOUT_MIN_S], the wait returns [RESPONSE_SUCCESS]: the elapsed
    time is not compared with the maximum again, so this is also the result
    when it exceeds [DELAY_TIMEOUT_MAX_S].  If the guard of iteration [n]
    reads [DELAY_TIMEOUT_MAX_S] or more, no sample having read low, the
    wait returns [RESPONSE_TIMEOUT]. *)
Theorem wait_for_signal_classification (env : Comm.Env) (fuel n : nat) :
  (n < fuel)%nat ->
  (forall j, (j < n)%nat ->
     (Comm.guard_elapsed env j < Comm.DELAY_TIMEOUT_MAX_S)%Q
     /\ Comm.resp env j <> 0) ->
  ((Comm.guard_elapsed env n < Comm.DELAY_TIMEOUT_MAX_S)%Q ->
   Comm.resp env n = 0 ->
   (Comm.sample_elapsed env n < Comm.DELAY_TIMEOUT_MIN_S)%Q ->
   option_map Comm.returned (Comm.wait_for_signal env fuel)
   = Some Comm.RESPONSE_TIMEOUT)
  /\ ((Comm.guard_elapsed env n < Comm.DELAY_TIMEOUT_MAX_S)%Q ->
      Comm.resp env n = 0 ->
      (Comm.DELAY_TIMEOUT_MIN_S <= Comm.sample_elapsed env n)%Q ->
      option_map Comm.returned (Comm.wait_for_signal env fuel)
      = Some Comm.RESPONSE_SUCCESS)
  /\ ((Comm.guard_elapsed env n < Comm.DELAY_TIMEOUT_MAX_S)%Q ->
      Comm.resp env n = 0 ->
      (Comm.DELAY_TIMEOUT_MAX_S < Comm.sample_elapsed env n)%Q ->
      option_map Comm.returned (Comm.wait_for_signal env fuel)
      = Some Comm.RESPONSE_SUCCESS)
  /\ ((Comm.DELAY_TIMEOUT_MAX_S <= Comm.guard_elapsed env n)%Q ->
      option_map Comm.returned (Comm.wait_for_signal env fuel)
      = Some Comm.RESPONSE_TIMEOUT).
Proof.
  intros Hn Hpoll.
  rewrite (wait_for_signal_reaches env fuel n Hn Hpoll).
  repeat split.
  - intros Hg Hr Ht. rewrite wait_loop_low by assumption.
    apply Qltb_lt in Ht. rewrite Ht. reflexivity.
  - intros Hg Hr Ht. rewrite wait_loop_low by assumption.
    apply Qltb_ge in Ht. rewrite Ht. reflexivity.
  - intros Hg Hr Ht. rewrite wait_loop_low by assumption.
    assert (Hmin : (Comm.DELAY_TIMEOUT_MIN_S <= Comm.sample_elapsed env n)%Q).
    { unfold Comm.DELAY_TIMEOUT_MIN_S, Comm.DELAY_TIMEOUT_MAX_S in *. lra. }
    apply Qltb_ge in Hmin. rewrite Hmin. reflexivity.
  - intros Hg. rewrite wait_loop_expired by assumption. reflexivity.
Qed.

(** The four cases of the amended C5 on concrete lines: a line that is low
    at once (after 60 ms) fails, a line that goes low at the fourth sample
    (half a second) succeeds, a line found low under a guard that read
    9.9 s succeeds with 10.5 s elapsed, a line that stays high times out. *)
Lemma wait_for_signal_classification_witness :
  option_map Comm.returned (Comm.wait_for_signal Scenario.glitch 5)
  = Some Comm.RESPONSE_TIMEOUT
  /\ option_map Comm.returned (Comm.wait_for_signal (Scenario.tenths 3) 5)
     = Some Comm.RESPONSE_SUCCESS
  /\ option_map Comm.returned (Comm.wait_for_signal Scenario.late_ack 5)
     = Some Comm.RESPONSE_SUCCESS
  /\ option_map Comm.returned (Comm.wait_for_signal Scenario.silent 5)
     = Some Comm.RESPONSE_TIMEOUT.
Proof.
  split; [|split; [|split]].
  - destruct (wait_for_signal_classification Scenario.glitch 5 0)
      as (Hnoise & _ & _ & _); [lia | intros j Hj; lia |].
    apply Hnoise; [vm_compute; reflexivity | reflexivity | vm_compute; reflexivity].
  - destruct (wait_for_signal_classification (Scenario.tenths 3) 5 3)
      as (_ & Hack & _ & _); [lia | |].
    + intros j Hj.
      destruct j as [|[|[|j]]]; [| | |lia];
        (split; [vm_compute; reflexivity | vm_compute; discriminate]).
    + apply Hack; [vm_compute; reflexivity | reflexivity | vm_compute; discriminate].
  - destruct (wait_for_signal_classification Scenario.late_ack 5 0)
      as (_ & _ & Hpast & _); [lia | intros j Hj; lia |].
    apply Hpast; [vm_compute; reflexivity | reflexivity | vm_compute; reflexivity].
  - destruct (wait_for_signal_classification Scenario.silent 5 1)
      as (_ & _ & _ & Hlate); [lia | |].
    + intros j Hj.
      destruct j as [|j]; [|lia].
      split; [vm_compute; reflexivity | vm_compute; discriminate].
    + apply Hlate. vm_compute. discriminate.
Defined.

(** C10: when the first sample that reads low (sample [n], every earlier
    sample having read high under a holding guard) is taken with less than
    [DELAY_TIMEOUT_MIN_S] elapsed, the wait returns [RESPONSE_TIMEOUT] with
    exactly [n + 1] samples taken: the line is not sampled again, whatever
    it would have read later. *)
Theorem early_low_sample_ends_wait (env : Comm.Env) (fuel n : nat) :
  (n < fuel)%nat ->
  (forall j, (j < n)%nat ->
     (Comm.guard_elapsed env j < Comm.DELAY_TIMEOUT_MAX_S)%Q
     /\ Comm.resp env j <> 0) ->
  (Comm.guard_elapsed env n < Comm.DELAY_TIMEOUT_MAX_S)%Q ->
  Comm.resp env n = 0 ->
  (Comm.sample_elapsed env n < Comm.DELAY_TIMEOUT_MIN_S)%Q ->
  Comm.wait_for_signal env fuel
  = Some (Comm.mkWait Comm.RESPONSE_TIMEOUT (S n))
  /\ forall later : nat -> Z,
       Comm.wait_for_signal
         (Comm.mkEnv (Comm.clock env)
                     (fun j => if (j <=? n)%nat then Comm.resp env j else later j))
         fuel
       = Some (Comm.mkWait Comm.RESPONSE_TIMEOUT (S n)).
Proof.
  intros Hn Hpoll Hg Hr Ht.
  assert (Hmain : forall e : Comm.Env,
            (forall k, Comm.clock e k = Comm.clock env k) ->
            (forall j, (j <= n)%nat -> Comm.resp e j = Comm.resp env j) ->
            Comm.wait_for_signal e fuel
            = Some (Comm.mkWait Comm.RESPONSE_TIMEOUT (S n))).
  { intros e Hc Hs.
    assert (Hge : forall j, Comm.guard_elapsed e j = Comm.guard_elapsed env j)
      by (intros j; unfold Comm.guard_elapsed; now rewrite !Hc).
    assert (Hse : Comm.sample_elapsed e n = Comm.sample_elapsed env n)
      by (unfold Comm.sample_elapsed; now rewrite !Hc).
    rewrite (wait_for_signal_reaches e fuel n Hn).
    - rewrite wait_loop_low.
      + rewrite Hse. apply Qltb_lt in Ht. now rewrite Ht.
      + now rewrite Hge.
      + now rewrite Hs.
    - intros j Hj. rewrite Hge, Hs by lia. apply Hpoll. exact Hj. }
  split.
  - apply Hmain; reflexivity.
  - intros later. apply Hmain; [reflexivity|].
    intros j Hj. cbn [Comm.resp].
    apply Nat.leb_le in Hj. now rewrite Hj.
Qed.

(** C10 on a concrete line: low at the first sample, 60 ms after the start;
    one sample is taken, and a line that read low again later changes
    nothing. *)
Lemma early_low_sample_ends_wait_witness :
  Comm.wait_for_signal Scenario.glitch 200
  = Some (Comm.mkWait Comm.RESPONSE_TIMEOUT 1).
Proof.
  destruct (early_low_sample_ends_wait Scenario.glitch 200 0) as [Hret _].
  - lia.
  - intros j Hj. lia.
  - vm_compute. reflexivity.
  - reflexivity.
  - vm_compute. reflexivity.
  - exact Hret.
Defined.

(** * Properties of the movement module *)

Section MovementFacts.

Import Movement.

Context {Offset : Type}.
Variable SQUARE_CENTER : Offset.
Variable form : Z -> Z -> Offset -> Color -> Z.
Variable link : nat -> Z -> Response.

Local Abbreviation move_piece := (Movement.move_piece SQUARE_CENTER form link).
Local Abbreviation reflect_move := (Movement.reflect_move SQUARE_CENTER form link).

(** After a failure [move_piece] does nothing. *)
Lemma move_piece_skips (f t : Z) (w : World) :
  move_piece f t COMMAND_FAILURE w = (Ok COMMAND_FAILURE, w).
Proof. reflexivity. Qed.

(** After a success [move_piece] issues one command and recentres the
    endpoints that are real squares when the command succeeds. *)
Lemma move_piece_issues (f t : Z) (w : World) :
  let command := form f t (offsets (board w) f) (perspective (board w)) in
  let r := link (length (sent w)) command in
  exists b',
    move_piece f t COMMAND_SUCCESS w
    = (Ok r, mkWorld b' (sent w ++ [mkRelocation f t command r]))
    /\ chess_board b' = chess_board (board w)
    /\ perspective b' = perspective (board w)
    /\ (r = COMMAND_FAILURE -> b' = board w)
    /\ (r = COMMAND_SUCCESS ->
        forall s, offsets b' s
                  = if ((s =? f) || (s =? t)) && real_square s
                    then SQUARE_CENTER else offsets (board w) s).
Proof.
  intros command r. destruct w as [b snt].
  unfold Movement.move_piece, bind, get_board, issue, put_board, ret, rb_offset.
  cbn [board sent] in *. fold command. fold r.
  destruct r eqn:Er.
  - destruct (real_square f) eqn:Ef, (real_square t) eqn:Et; cbn [board sent];
      eexists; (split; [reflexivity|]);
      (split; [reflexivity|]); (split; [reflexivity|]);
      (split; [discriminate|]); intros _ s; cbn [offsets rb_set_offset];
      destruct (Z.eqb_spec s f), (Z.eqb_spec s t); subst;
      cbn [orb andb]; rewrite ?Ef, ?Et; try reflexivity; congruence.
  - exists b. repeat split; try reflexivity. discriminate.
Qed.

(** The status [move_piece] returns: never an exception. *)
Lemma move_piece_returns (f t : Z) (prev : Response) (w : World) :
  exists r w', move_piece f t prev w = (Ok r, w').
Proof.
  destruct prev.
  - destruct (move_piece_issues f t w) as (b' & E & _). eauto.
  - rewrite move_piece_skips. eauto.
Qed.

End MovementFacts.

Section ChainFacts.

Import Movement.

Context {Offset : Type}.
Variable SQUARE_CENTER : Offset.
Variable form : Z -> Z -> Offset -> Color -> Z.
Variable link : nat -> Z -> Response.

Local Abbreviation move_piece := (Movement.move_piece SQUARE_CENTER form link).
Local Abbreviation reflect_move := (Movement.reflect_move SQUARE_CENTER form link).

Lemma bind_get {A} (k : RealBoard -> M A) (w : World (Offset := Offset)) :
  bind get_board k w = k (board w) w.
Proof. reflexivity. Qed.

Lemma bind_ret {A B} (a : A) (k : A -> M B) (w : World (Offset := Offset)) :
  bind (ret a) k w = k a w.
Proof. reflexivity. Qed.

Lemma bind_lift {A B} (r : Result A) (k : A -> M B) (w : World (Offset := Offset)) :
  bind (lift r) k w
  = match r with Ok a => k a w | Raise e => (Raise e, w) end.
Proof. destruct r; reflexivity. Qed.

Lemma bind_assoc {A B C} (c : M A) (f : A -> M B) (k : B -> M C)
    (w : World (Offset := Offset)) :
  bind (bind c f) k w = bind c (fun a => bind (f a) k) w.
Proof. unfold bind. destruct (c w) as [[a|e] w']; reflexivity. Qed.

Lemma bind_piece_attrs {B} (square : Z) (k : Piece -> M B)
    (w : World (Offset := Offset)) :
  bind (piece_attrs square) k w
  = match rb_piece_at (board w) square with
    | Some p => k p w
    | None => (Raise AttributeError, w)
    end.
Proof.
  unfold piece_attrs. rewrite bind_assoc, bind_get, bind_lift.
  destruct (rb_piece_at (board w) square); reflexivity.
Qed.

Lemma bind_step {A B} (c : M A) (k : A -> M B) (a : A)
    (w w' : World (Offset := Offset)) :
  c w = (Ok a, w') -> bind c k w = k a w'.
Proof. intros E. unfold bind. now rewrite E. Qed.

Lemma chained_start (w : World (Offset := Offset)) : chained w COMMAND_SUCCESS w.
Proof.
  split; [reflexivity|]. exists []. split; [now rewrite app_nil_r|]. constructor.
Qed.

(** One more [move_piece] keeps the chain. *)
Lemma move_piece_chained (f t : Z) (prev : Response) (w0 w : World) :
  chained w0 prev w ->
  exists r w', move_piece f t prev w = (Ok r, w') /\ chained w0 r w'.
Proof.
  intros (Hcb & issued & Hsent & Hst). destruct prev.
  - destruct (move_piece_issues SQUARE_CENTER form link f t w)
      as (b' & E & Hcb' & _).
    cbv zeta in E. destruct (link (length (sent w)) _) eqn:El;
      (eexists _, _; split; [exact E|]; split; [cbn [board]; congruence|];
       cbn [sent]; eexists; split; [rewrite Hsent, <- app_assoc; reflexivity|]).
    + apply Forall_app. split; [exact Hst|].
      apply List.Forall_cons; [reflexivity|apply List.Forall_nil].
    + eexists _, _. split; [reflexivity|]. split; [exact Hst|reflexivity].
  - rewrite move_piece_skips. eexists _, _. split; [reflexivity|].
    split; [exact Hcb|]. exists issued. split; assumption.
Qed.

(** In a chain nothing is issued after a failure, and a failure is what the
    chain then carries. *)
Lemma chained_short_circuit (w0 w : World (Offset := Offset)) (response : Response) :
  chained w0 response w ->
  exists issued,
    sent w = sent w0 ++ issued
    /\ forall pre r post,
         issued = pre ++ r :: post ->
         rel_response r = COMMAND_FAILURE ->
         post = [] /\ response = COMMAND_FAILURE.
Proof.
  intros (_ & issued & Hsent & Hst). exists issued. split; [exact Hsent|].
  intros pre r post -> Hr. destruct response.
  - unfold all_acknowledged in Hst. rewrite Forall_app in Hst.
    destruct Hst as [_ Hst]. inversion Hst; subst. congruence.
  - destruct Hst as (pre' & r' & E & Hpre & Hr').
    split; [|reflexivity].
    destruct post as [|x post] using rev_ind; [reflexivity|]. exfalso.
    rewrite app_comm_cons, app_assoc in E.
    apply app_inj_tail in E. destruct E as [E _]. subst pre'.
    unfold all_acknowledged in Hpre. rewrite Forall_app in Hpre.
    destruct Hpre as [_ Hpre]. inversion Hpre; subst. congruence.
Qed.

(** python-chess counts an en passant move as a capture, and its
    destination square is empty. *)
Lemma en_passant_is_capture (b : Chess.Board) (m : Chess.Move) :
  Chess.is_en_passant b m = true ->
  Chess.is_capture b m = true
  /\ Chess.piece_at b (Chess.to_square m) = None
  /\ Chess.is_castling b m = false.
Proof.
  intros H. unfold Chess.is_capture. rewrite H, orb_true_r.
  split; [reflexivity|].
  unfold Chess.is_en_passant in H. rewrite !andb_true_iff in H.
  destruct H as [[[_ Hp] _] Ho].
  unfold Chess.occupied in Ho. unfold Chess.is_castling, Chess.type_on in *.
  split.
  - destruct (Chess.piece_at b (Chess.to_square m)); [discriminate|reflexivity].
  - destruct (Chess.piece_at b (Chess.from_square m)) as [p|]; [|reflexivity].
    destruct (piece_type p); try discriminate; reflexivity.
Qed.

End ChainFacts.

Section ReflectFacts.

Import Movement.

Context {Offset : Type}.
Variable SQUARE_CENTER : Offset.
Variable form : Z -> Z -> Offset -> Color -> Z.
Variable link : nat -> Z -> Response.

Local Abbreviation move_piece := (Movement.move_piece SQUARE_CENTER form link).
Local Abbreviation reflect_move := (Movement.reflect_move SQUARE_CENTER form link).

Ltac chain_step f t H r w' E H' :=
  destruct (move_piece_chained SQUARE_CENTER form link f t _ _ _ H)
    as (r & w' & E & H');
  rewrite (bind_step _ _ _ _ _ E).

(** What a call of [reflect_move] leaves behind, whether it returns or
    raises: a chain of [move_piece] calls whose status is the returned one,
    unless nothing failed or no piece stands on the origin square. *)
Lemma reflect_move_chained (move : Chess.Move) (w : World) :
  exists res w' response,
    reflect_move move w = (res, w')
    /\ chained w response w'
    /\ (res = Ok response
        \/ response = COMMAND_SUCCESS
        \/ rb_piece_at (board w) (Chess.from_square move) = None).
Proof.
  unfold Movement.reflect_move. rewrite bind_get.
  destruct (Chess.is_castling (chess_board (board w)) move) eqn:Hcastle.
  - rewrite bind_lift.
    destruct (castle_rook_move (chess_board (board w)) move) as [[rook_move|]|e].
    + destruct (Chess.Move_bool rook_move).
      * chain_step (Chess.from_square move) (Chess.to_square move)
                   (chained_start w) r1 w1 E1 H1.
        chain_step (Chess.from_square rook_move) (Chess.to_square rook_move)
                   H1 r2 w2 E2 H2.
        eexists _, _, _. split; [reflexivity|]. split; [exact H2|]. now left.
      * eexists _, _, _. split; [reflexivity|].
        split; [apply chained_start|]. now (right; left).
    + eexists _, _, _. split; [reflexivity|].
      split; [apply chained_start|]. now (right; left).
    + eexists _, _, _. split; [reflexivity|].
      split; [apply chained_start|]. now (right; left).
  - (* Regular moves *)
    rewrite bind_assoc, bind_get.
    match goal with |- context [bind (if _ then _ else _) ?K w] => set (rest := K) end.
    assert (Hrest : Chess.is_en_passant (chess_board (board w)) move = false ->
              forall r1 w1, chained w r1 w1 ->
              exists res w' response,
                rest r1 w1 = (res, w')
                /\ chained w response w'
                /\ (res = Ok response
                    \/ response = COMMAND_SUCCESS
                    \/ rb_piece_at (board w) (Chess.from_square move) = None)).
    { intros Hep r1 w1 H1. unfold rest.
      assert (Hcb : chess_board (board w1) = chess_board (board w)) by apply H1.
      rewrite bind_assoc, bind_get, Hcb, Hep, bind_ret.
      destruct (Chess.promotion move) as [promoted|].
      - rewrite bind_assoc, bind_piece_attrs. unfold rb_piece_at. rewrite Hcb.
        destruct (Chess.piece_at (chess_board (board w)) (Chess.from_square move))
          as [removed|] eqn:Hfrom.
        + rewrite bind_assoc.
          chain_step (Chess.from_square move) (off_board_place removed)
                     H1 r2 w2 E2 H2.
          rewrite bind_ret. cbn [fst snd].
          chain_step (Comm.off_board_square promoted (color removed) WHITE)
                     (Chess.to_square move) H2 r3 w3 E3 H3.
          eexists _, _, _. split; [reflexivity|]. split; [exact H3|]. now left.
        + eexists _, _, _. split; [reflexivity|]. split; [exact H1|].
          right; right. reflexivity.
      - rewrite bind_ret. cbn [fst snd].
        chain_step (Chess.from_square move) (Chess.to_square move)
                   H1 r3 w3 E3 H3.
        eexists _, _, _. split; [reflexivity|]. split; [exact H3|]. now left. }
    destruct (Chess.is_capture (chess_board (board w)) move) eqn:Hcap.
    + rewrite bind_assoc, bind_piece_attrs.
      destruct (rb_piece_at (board w) (Chess.to_square move)) as [captured|] eqn:Hto.
      2:{ eexists _, _, _. split; [reflexivity|].
          split; [apply chained_start|]. now (right; left). }
      chain_step (Chess.to_square move) (off_board_place captured)
                 (chained_start w) r1 w1 E1 H1.
      apply Hrest; [|exact H1].
      destruct (Chess.is_en_passant (chess_board (board w)) move) eqn:Hep;
        [|reflexivity].
      apply en_passant_is_capture in Hep. destruct Hep as (_ & Hnone & _).
      unfold rb_piece_at in Hto. congruence.
    + rewrite bind_ret. apply Hrest; [|apply chained_start].
      unfold Chess.is_capture in Hcap. apply orb_false_iff in Hcap. apply Hcap.
Qed.


(** The occupancy is the same after [reflect_move] as before. *)
Lemma reflect_move_keeps_occupancy (move : Chess.Move) (w : World) :
  chess_board (board (snd (reflect_move move w))) = chess_board (board w).
Proof.
  destruct (reflect_move_chained move w) as (res & w' & response & E & H & _).
  rewrite E. apply H.
Qed.

(** On an en passant move the capture branch reads the attributes of the
    piece on the destination square, which is empty: [reflect_move] raises
    before any command is issued. *)
Lemma reflect_move_en_passant_raises (move : Chess.Move) (w : World) :
  Chess.is_en_passant (chess_board (board w)) move = true ->
  reflect_move move w = (Raise AttributeError, w).
Proof.
  intros Hep. apply en_passant_is_capture in Hep.
  destruct Hep as (Hcap & Hnone & Hcastle).
  unfold Movement.reflect_move.
  rewrite bind_get, Hcastle, bind_assoc, bind_get, Hcap, bind_assoc,
    bind_piece_attrs.
  unfold rb_piece_at. now rewrite Hnone.
Qed.

(** C7: for a move whose origin square holds a piece, if a relocation
    issued by [reflect_move] fails then it is the last command the call
    issues (every later step is skipped without I/O) and the call returns
    [COMMAND_FAILURE]. *)
Theorem reflect_move_short_circuit (move : Chess.Move) (w : World) :
  rb_piece_at (board w) (Chess.from_square move) <> None ->
  exists issued,
    sent (snd (reflect_move move w)) = sent w ++ issued
    /\ forall pre r post,
         issued = pre ++ r :: post ->
         rel_response r = COMMAND_FAILURE ->
         post = [] /\ fst (reflect_move move w) = Ok COMMAND_FAILURE.
Proof.
  intros Hfrom.
  destruct (reflect_move_chained move w) as (res & w' & response & E & H & Hres).
  rewrite E. cbn [fst snd].
  destruct (chained_short_circuit w w' response H) as (issued & Hsent & Hfail).
  exists issued. split; [exact Hsent|].
  intros pre r post Hsplit Hr.
  destruct (Hfail pre r post Hsplit Hr) as [Hpost Hresp].
  split; [exact Hpost|].
  destruct Hres as [-> | [Hs | Hnone]]; congruence.
Qed.

(** C8: [move_piece] always returns a status; it never changes the
    occupancy; when it returns [COMMAND_SUCCESS] the offsets of the
    endpoints that are real squares are centred and every other offset is
    as before; when it returns [COMMAND_FAILURE] the board object is as
    before; and [reflect_move] never changes the occupancy either. *)
Theorem move_piece_frame (f t : Z) (prev : Response) (w : World) :
  (exists r, fst (move_piece f t prev w) = Ok r)
  /\ chess_board (board (snd (move_piece f t prev w))) = chess_board (board w)
  /\ (fst (move_piece f t prev w) = Ok COMMAND_SUCCESS ->
      forall s,
        offsets (board (snd (move_piece f t prev w))) s
        = if ((s =? f) || (s =? t)) && real_square s
          then SQUARE_CENTER else offsets (board w) s)
  /\ (fst (move_piece f t prev w) = Ok COMMAND_FAILURE ->
      board (snd (move_piece f t prev w)) = board w)
  /\ (forall move,
        chess_board (board (snd (reflect_move move w))) = chess_board (board w)).
Proof.
  assert (Hmp :
    (exists r, fst (move_piece f t prev w) = Ok r)
    /\ chess_board (board (snd (move_piece f t prev w))) = chess_board (board w)
    /\ (fst (move_piece f t prev w) = Ok COMMAND_SUCCESS ->
        forall s,
          offsets (board (snd (move_piece f t prev w))) s
          = if ((s =? f) || (s =? t)) && real_square s
            then SQUARE_CENTER else offsets (board w) s)
    /\ (fst (move_piece f t prev w) = Ok COMMAND_FAILURE ->
        board (snd (move_piece f t prev w)) = board w)).
  { destruct prev.
    - destruct (move_piece_issues SQUARE_CENTER form link f t w)
        as (b' & E & Hcb & _ & Hfail & Hok).
      rewrite E. cbn [fst snd board].
      split; [eauto|]. split; [exact Hcb|]. split.
      + intros Hr. apply Hok. congruence.
      + intros Hr. apply Hfail. congruence.
    - rewrite move_piece_skips. cbn [fst snd].
      split; [eauto|]. split; [reflexivity|]. split; [discriminate|reflexivity]. }
  destruct Hmp as (H1 & H2 & H3 & H4).
  repeat split; try assumption.
  intros move. apply reflect_move_keeps_occupancy.
Qed.

End ReflectFacts.

(** C7 on a concrete move: the rook takes the knight on a dead link.  The
    first relocation (knight to its slot) fails, nothing else is issued and
    the move reports a failure. *)
Lemma reflect_move_short_circuit_witness :
  fst (Movement.reflect_move Scenario.center Scenario.codec Scenario.link_dead
         Scenario.capture_move (Movement.mkWorld Scenario.capture_board []))
  = Ok Movement.COMMAND_FAILURE
  /\ map (fun r => (Movement.rel_from r, Movement.rel_to r))
         (Movement.sent
            (snd (Movement.reflect_move Scenario.center Scenario.codec
                    Scenario.link_dead Scenario.capture_move
                    (Movement.mkWorld Scenario.capture_board []))))
     = [(32, -9)].
Proof.
  destruct (reflect_move_short_circuit
              Scenario.center Scenario.codec Scenario.link_dead
              Scenario.capture_move
              (Movement.mkWorld Scenario.capture_board []))
    as (issued & Hsent & Hfail).
  - vm_compute. discriminate.
  - split; [|vm_compute; reflexivity].
    vm_compute in Hsent. subst issued.
    destruct (Hfail [] _ [] eq_refl eq_refl) as [_ Hres]. exact Hres.
Defined.

(** C8 on a concrete board: e2-e4 with every piece off-centre.  On a live
    link e2 and e4 are centred and d2 keeps its offset; on a dead link the
    board is untouched. *)
Lemma move_piece_frame_witness :
  let w := Movement.mkWorld Scenario.nudged [] in
  let ok := snd (Movement.move_piece Scenario.center Scenario.codec
                   Scenario.link_ok 12 28 Movement.COMMAND_SUCCESS w) in
  let ko := snd (Movement.move_piece Scenario.center Scenario.codec
                   Scenario.link_dead 12 28 Movement.COMMAND_SUCCESS w) in
  Movement.offsets (Movement.board ok) 12 = Scenario.center
  /\ Movement.offsets (Movement.board ok) 28 = Scenario.center
  /\ Movement.offsets (Movement.board ok) 11 = (1 # 4, - (1 # 4))%Q
  /\ Movement.board ko = Scenario.nudged.
Proof.
  intros w ok ko.
  destruct (move_piece_frame Scenario.center Scenario.codec Scenario.link_ok
              12 28 Movement.COMMAND_SUCCESS w) as (_ & _ & Hok & _ & _).
  destruct (move_piece_frame Scenario.center Scenario.codec Scenario.link_dead
              12 28 Movement.COMMAND_SUCCESS w) as (_ & _ & _ & Hko & _).
  specialize (Hok eq_refl). specialize (Hko eq_refl).
  split; [exact (Hok 12)|]. split; [exact (Hok 28)|]. split; [exact (Hok 11)|].
  exact Hko.
Defined.

(** C4: on the en passant capture e5xd6 (black pawn on d5, en passant
    square d6) [reflect_move] raises [AttributeError] before it issues any
    command, whatever the link would answer: it performs no relocation and
    returns no status. *)
Theorem reflect_move_en_passant_fails (link : nat -> Z -> Movement.Response) :
  Chess.is_en_passant (Movement.chess_board Scenario.en_passant_board)
                      Scenario.en_passant_move = true
  /\ Movement.en_passant_captured Scenario.en_passant_move = 35
  /\ fst (Movement.reflect_move Scenario.center Scenario.codec link
            Scenario.en_passant_move
            (Movement.mkWorld Scenario.en_passant_board []))
     = Raise AttributeError
  /\ Movement.sent
       (snd (Movement.reflect_move Scenario.center Scenario.codec link
               Scenario.en_passant_move
               (Movement.mkWorld Scenario.en_passant_board [])))
     = [].
Proof.
  split; [reflexivity|]. split; [reflexivity|].
  rewrite reflect_move_en_passant_raises by reflexivity.
  split; reflexivity.
Qed.

(** *** Move identification *)

(** A vacated square held a piece in the previous snapshot. *)
Lemma dissapeared_occupied (prev_board current_board : Chess.Board) (d : Z) :
  In d (Movement.dissapeared prev_board current_board) ->
  exists p, Chess.piece_at prev_board d = Some p.
Proof.
  unfold Movement.dissapeared. rewrite filter_In. intros [_ H].
  rewrite !andb_true_iff in H. destruct H as (_ & Hocc & _).
  unfold Chess.occupied in Hocc.
  destruct (Chess.piece_at prev_board d) as [p|]; [eauto|discriminate].
Qed.

(** An occupied square of the diff holds a piece in the current snapshot. *)
Lemma appeared_occupied (prev_board current_board : Chess.Board) (a : Z) :
  In a (Movement.appeared prev_board current_board) ->
  exists q, Chess.piece_at current_board a = Some q.
Proof.
  unfold Movement.appeared. rewrite filter_In. intros [_ H].
  rewrite andb_true_iff in H. destruct H as (Hne & Hnot).
  unfold Chess.occupied, Chess.opiece_eqb in *.
  destruct (Chess.piece_at current_board a) as [q|]; [eauto|].
  destruct (Chess.piece_at prev_board a); discriminate.
Qed.

(** C9: when the occupancy diff has exactly one vacated square [d] and one
    occupied square [a], [identify_move] returns (without raising) what the
    design document describes: none for en passant or castling geometry on
    the previous snapshot; for a pawn reaching rank 1 or rank 8, the move
    with the destination piece's type as promotion when that piece has the
    pawn's colour and none otherwise; the plain move in every other case. *)
Theorem identify_move_simple (prev_board current_board : Chess.Board) (d a : Z) :
  Movement.dissapeared prev_board current_board = [d] ->
  Movement.appeared prev_board current_board = [a] ->
  Movement.identify_move prev_board current_board
  = Ok (Movement.simple_move_spec prev_board current_board d a).
Proof.
  intros Hd Ha. unfold Movement.identify_move. rewrite Hd, Ha.
  destruct (dissapeared_occupied prev_board current_board d) as [p Hp].
  { rewrite Hd. now left. }
  unfold Movement.identify_simple, Movement.is_en_passant,
    Movement.simple_move_spec, Movement.en_passant_geometry,
    Chess.type_on, Chess.color_on.
  cbn [Chess.from_square Chess.to_square]. rewrite Hp. cbn [attr rbind].
  destruct (PieceType_eqb (piece_type p) PAWN) eqn:Hpawn; cbn [andb orb].
  - destruct (((Z.abs (d - a) =? 7) || (Z.abs (d - a) =? 9))
              && negb (Chess.occupied prev_board a)) eqn:Hgeo; cbn [orb].
    + reflexivity.
    + destruct (Chess.is_castling prev_board (Chess.mkMove d a None));
        [reflexivity|].
      destruct (Movement.on_edge_rank a); [|reflexivity].
      destruct (Chess.piece_at current_board a) as [q|]; [|reflexivity].
      destruct (Color_eqb (color p) (color q)); reflexivity.
  - destruct (Chess.is_castling prev_board (Chess.mkMove d a None)); reflexivity.
Qed.

(** C9 on e2-e4: one square vacated, one occupied, a pawn that does not
    reach a last rank; the plain move e2-e4 is identified. *)
Lemma identify_move_simple_witness :
  Movement.identify_move Scenario.before_e4 Scenario.after_e4
  = Ok (Some (Chess.mkMove 12 28 None)).
Proof.
  rewrite (identify_move_simple Scenario.before_e4 Scenario.after_e4 12 28);
    reflexivity.
Defined.

(** *** Board reconciliation *)

Lemma skipn_length_app {A} (l l' : list A) : skipn (length l) (l ++ l') = l'.
Proof. induction l as [|x l IH]; simpl; auto. Qed.

(** The target holds the two kings only; every command is acknowledged and
    every relocation is confirmed. *)
Section ShuffleFacts.

Import Movement.

Context {Offset : Type}.
Variable SQUARE_CENTER : Offset.
Variable form : Z -> Z -> Offset -> Color -> Z.
Variable expected : RealBoard (Offset := Offset).
Hypothesis expected_kings : Chess.pieces (chess_board expected) = Scenario.kings_only.

Local Abbreviation acknowledged := (fun (_ : nat) (_ : Z) => COMMAND_SUCCESS).
Local Abbreviation reset_call := (Movement.reset_call SQUARE_CENTER form acknowledged expected).
Local Abbreviation iter_reset_board := (Movement.iter_reset_board SQUARE_CENTER form acknowledged expected).

(** On an acknowledging link [move_piece_and_update] from a square of the
    current dictionary issues one relocation and returns a success. *)
Lemma move_piece_and_update_acknowledged (pl : Plan) (start_square end_square : Z)
    (w : World) :
  dict_mem (current_positions pl) start_square = true ->
  exists b' pl',
    Movement.move_piece_and_update SQUARE_CENTER form acknowledged
      pl start_square end_square w
    = (Ok (COMMAND_SUCCESS, pl'),
       mkWorld b' (sent w ++ [mkRelocation start_square end_square
                                (form start_square end_square
                                   (offsets (board w) start_square)
                                   (perspective (board w)))
                                COMMAND_SUCCESS]))
    /\ chess_board b' = chess_board (board w).
Proof.
  intros Hmem. unfold Movement.move_piece_and_update.
  rewrite bind_get.
  destruct (move_piece_issues SQUARE_CENTER form acknowledged
              start_square end_square w) as (b' & E & Hcb & _).
  cbv zeta in E. rewrite (bind_step _ _ _ _ _ E).
  unfold dict_pop. rewrite Hmem, bind_lift.
  eexists _, _. split; [reflexivity|exact Hcb].
Qed.

(** The plan when the current board has the surplus rook on [square]. *)
Lemma make_plan_surplus (b : RealBoard) (square : Z) :
  Chess.pieces (chess_board b)
  = <[square := mkPiece ROOK WHITE]> Scenario.kings_only ->
  square = 0 \/ square = 1 ->
  current_positions (make_plan b expected) = [(square, Some (mkPiece ROOK WHITE))]
  /\ expected_positions (make_plan b expected) = []
  /\ hd_error (empty_squares (make_plan b expected)) = Some (1 - square).
Proof.
  revert expected_kings.
  destruct expected as [[epcs etrn eep] eoffs epersp].
  destruct b as [[pcs trn ep] offs persp].
  cbn [chess_board Chess.pieces].
  intros -> -> [-> | ->]; vm_compute; repeat split; reflexivity.
Qed.

(** With the surplus rook on [square] (a1 or b1) a call takes the second
    pass and sends the rook to the other of the two squares. *)
Lemma iter_reset_board_surplus (w : World) (square : Z) :
  Chess.pieces (chess_board (board w))
  = <[square := mkPiece ROOK WHITE]> Scenario.kings_only ->
  square = 0 \/ square = 1 ->
  exists b',
    iter_reset_board w
    = (Ok (COMMAND_SUCCESS, false),
       mkWorld b' (sent w ++ [mkRelocation square (1 - square)
                                (form square (1 - square)
                                   (offsets (board w) square)
                                   (perspective (board w)))
                                COMMAND_SUCCESS]))
    /\ chess_board b' = chess_board (board w).
Proof.
  intros Hw Hsq.
  destruct (make_plan_surplus (board w) square Hw Hsq) as (Hcur & Hexp & Hempty).
  unfold Movement.iter_reset_board. rewrite bind_get.
  rewrite Hcur, Hexp.
  destruct (empty_squares (make_plan (board w) expected)) as [|temp rest] eqn:He;
    [discriminate|].
  cbn [hd_error] in Hempty. injection Hempty as ->.
  cbn [first_pass second_pass in_values existsb negb tl].
  match goal with
  | |- context [Movement.move_piece_and_update _ _ _ ?pl ?s ?e] =>
      destruct (move_piece_and_update_acknowledged pl s e w)
        as (b' & pl' & E & Hcb)
  end.
  { cbn [current_positions dict_mem existsb fst]. now rewrite Z.eqb_refl. }
  rewrite (bind_step _ _ _ _ _ E). cbn [fst].
  exists b'. split; [reflexivity|exact Hcb].
Qed.

Lemma with_rook_b1_insert :
  Scenario.with_rook_b1 = <[1 := mkPiece ROOK WHITE]> Scenario.kings_only.
Proof. vm_compute. reflexivity. Qed.

Lemma with_rook_a1_insert :
  Scenario.with_rook_a1 = <[0 := mkPiece ROOK WHITE]> Scenario.kings_only.
Proof. vm_compute. reflexivity. Qed.

Lemma iter_reset_board_b1 (w : World) :
  Chess.pieces (chess_board (board w)) = Scenario.with_rook_b1 ->
  exists b',
    iter_reset_board w
    = (Ok (COMMAND_SUCCESS, false),
       mkWorld b' (sent w ++ [mkRelocation 1 0
                                (form 1 0 (offsets (board w) 1) (perspective (board w)))
                                COMMAND_SUCCESS]))
    /\ chess_board b' = chess_board (board w).
Proof.
  intros Hw. rewrite with_rook_b1_insert in Hw.
  apply (iter_reset_board_surplus w 1 Hw). now right.
Qed.

Lemma iter_reset_board_a1 (w : World) :
  Chess.pieces (chess_board (board w)) = Scenario.with_rook_a1 ->
  exists b',
    iter_reset_board w
    = (Ok (COMMAND_SUCCESS, false),
       mkWorld b' (sent w ++ [mkRelocation 0 1
                                (form 0 1 (offsets (board w) 0) (perspective (board w)))
                                COMMAND_SUCCESS]))
    /\ chess_board b' = chess_board (board w).
Proof.
  intros Hw. rewrite with_rook_a1_insert in Hw.
  apply (iter_reset_board_surplus w 0 Hw). now left.
Qed.

Lemma reset_call_b1 (w : World) :
  Chess.pieces (chess_board (board w)) = Scenario.with_rook_b1 ->
  fst (reset_call w) = Ok (COMMAND_SUCCESS, false)
  /\ Chess.pieces (chess_board (board (snd (reset_call w)))) = Scenario.with_rook_a1.
Proof.
  intros Hw. destruct (iter_reset_board_b1 w Hw) as (b' & E & Hcb).
  unfold Movement.reset_call. rewrite E. cbn [sent board fst snd].
  rewrite skipn_length_app. cbn [fold_left].
  split; [reflexivity|].
  unfold confirm_relocation. cbn [rel_response rel_from rel_to chess_board Chess.pieces].
  rewrite Hcb. unfold Chess.piece_at. rewrite Hw. vm_compute. reflexivity.
Qed.

Lemma reset_call_a1 (w : World) :
  Chess.pieces (chess_board (board w)) = Scenario.with_rook_a1 ->
  fst (reset_call w) = Ok (COMMAND_SUCCESS, false)
  /\ Chess.pieces (chess_board (board (snd (reset_call w)))) = Scenario.with_rook_b1.
Proof.
  intros Hw. destruct (iter_reset_board_a1 w Hw) as (b' & E & Hcb).
  unfold Movement.reset_call. rewrite E. cbn [sent board fst snd].
  rewrite skipn_length_app. cbn [fold_left].
  split; [reflexivity|].
  unfold confirm_relocation. cbn [rel_response rel_from rel_to chess_board Chess.pieces].
  rewrite Hcb. unfold Chess.piece_at. rewrite Hw. vm_compute. reflexivity.
Qed.

Lemma reset_calls_shuffle (w : World) (n : nat) :
  Chess.pieces (chess_board (board w)) = Scenario.with_rook_b1 ->
  let pcs := Chess.pieces (chess_board (board
               (Movement.reset_calls SQUARE_CENTER form acknowledged expected n w))) in
  pcs = Scenario.with_rook_b1 \/ pcs = Scenario.with_rook_a1.
Proof.
  intros Hw. induction n as [|n IH]; cbn [Movement.reset_calls].
  - now left.
  - destruct IH as [IH | IH].
    + right. apply reset_call_b1. exact IH.
    + left. apply reset_call_a1. exact IH.
Qed.

Lemma nth_reset_call_shuffle (w : World) (n : nat) :
  Chess.pieces (chess_board (board w)) = Scenario.with_rook_b1 ->
  Movement.nth_reset_call SQUARE_CENTER form acknowledged expected n w
  = Ok (COMMAND_SUCCESS, false).
Proof.
  intros Hw. unfold Movement.nth_reset_call.
  destruct (reset_calls_shuffle w n Hw) as [H | H].
  - apply reset_call_b1. exact H.
  - apply reset_call_a1. exact H.
Qed.

End ShuffleFacts.


(** A piece that has to come from its off-board slot: the third pass issues
    the relocation and then [current_positions.pop(start_square)] raises
    [KeyError], the slot not being a key of the dictionary. *)
Lemma iter_reset_board_from_slot_raises :
  let r := Movement.iter_reset_board Scenario.center Scenario.codec
             Scenario.link_ok Scenario.rook_b1
             (Movement.mkWorld Scenario.bare_kings []) in
  fst r = Raise KeyError
  /\ map (fun e => (Movement.rel_from e, Movement.rel_to e)) (Movement.sent (snd r))
     = [(-1, 1)].
Proof. vm_compute. split; reflexivity. Qed.

(** C3: with the kings on e1 and e8 and a surplus white rook on b1, the
    target being the two kings alone, every relocation acknowledged and
    confirmed, no call of [iter_reset_board] ever reports Done: the second
    pass moves the rook from b1 to a1, the next call moves it back, and so
    on.  The first four calls issue b1-a1, a1-b1, b1-a1, a1-b1. *)
Theorem iter_reset_board_shuffles_forever :
  (forall n,
     Movement.nth_reset_call Scenario.center Scenario.codec Scenario.link_ok
       Scenario.bare_kings n (Movement.mkWorld Scenario.rook_b1 [])
     = Ok (Movement.COMMAND_SUCCESS, false))
  /\ map (fun e => (Movement.rel_from e, Movement.rel_to e))
         (Movement.sent
            (Movement.reset_calls Scenario.center Scenario.codec Scenario.link_ok
               Scenario.bare_kings 4 (Movement.mkWorld Scenario.rook_b1 [])))
     = [(1, 0); (0, 1); (1, 0); (0, 1)].
Proof.
  split.
  - intros n.
    apply (nth_reset_call_shuffle Scenario.center Scenario.codec Scenario.bare_kings);
      reflexivity.
  - vm_compute. reflexivity.
Qed.

(** * Further properties of the communication module *)

Lemma quot_clamped (n : Z) (d : positive) :
  -100 * Zpos d <= n <= 100 * Zpos d -> -100 <= Z.quot n (Zpos d) <= 100.
Proof.
  intros H. destruct (Z_le_gt_dec 0 n) as [Hn | Hn].
  - rewrite Z.quot_div_nonneg by lia. split.
    + pose proof (Z.div_pos n (Zpos d)). lia.
    + apply Z.div_le_upper_bound; lia.
  - replace n with (- (- n)) by lia. rewrite Z.quot_opp_l by lia.
    rewrite Z.quot_div_nonneg by lia.
    assert (0 <= (- n) / Zpos d <= 100).
    { split; [apply Z.div_pos; lia | apply Z.div_le_upper_bound; lia]. }
    lia.
Qed.


Lemma clamp_cases (x : Q) :
  let v := Comm.py_max (Comm.py_min x (100 # 1)) (- (100 # 1)) in
  (v = (100 # 1)%Q /\ (100 # 1 < x)%Q)
  \/ (v = (- (100 # 1))%Q /\ (x < - (100 # 1))%Q)
  \/ (v = x /\ (- (100 # 1) <= x <= 100 # 1)%Q).
Proof.
  unfold Comm.py_max, Comm.py_min.
  destruct (Comm.Qltb (100 # 1) x) eqn:E1.
  - left. split; [reflexivity|]. now apply Qltb_lt.
  - destruct (Comm.Qltb x (- (100 # 1))) eqn:E2.
    + right; left. split; [reflexivity|]. now apply Qltb_lt.
    + right; right. split; [reflexivity|].
      apply Qltb_ge in E1, E2. split; assumption.
Qed.

(** [div_half_even a b] is an integer nearest to [a / b], and the even one
    of the two when [a / b] lies half way. *)
Lemma div_half_even_nearest (a b : Z) :
  0 < b ->
  2 * Z.abs (a - Comm.div_half_even a b * b) <= b
  /\ (2 * Z.abs (a - Comm.div_half_even a b * b) = b -> Z.even (Comm.div_half_even a b) = true).
Proof.
  intros Hb. unfold Comm.div_half_even.
  pose proof (Z.div_mod a b ltac:(lia)) as Hdm.
  pose proof (Z.mod_pos_bound a b Hb) as Hr.
  destruct (Z.compare_spec (2 * (a mod b)) b) as [E|E|E].
  - destruct (Z.even (a / b)) eqn:Hev.
    + split; [lia|]. intros _. exact Hev.
    + split; [lia|]. intros _. rewrite Z.even_add, Hev. reflexivity.
  - split; [lia|]. intros H. lia.
  - split; [lia|]. intros H. lia.
Qed.

(** [floor_log2 n d] is the binary exponent of [n / d]. *)
Lemma floor_log2_spec (n d : positive) :
  let e := Comm.floor_log2 n d in
  if 0 <=? e
  then Zpos d * 2 ^ e <= Zpos n < Zpos d * 2 ^ (e + 1)
  else Zpos n * 2 ^ (- e - 1) < Zpos d <= Zpos n * 2 ^ (- e).
Proof.
  unfold Comm.floor_log2.
  pose proof (Z.log2_spec (Zpos n) ltac:(lia)) as [Hn1 Hn2].
  pose proof (Z.log2_spec (Zpos d) ltac:(lia)) as [Hd1 Hd2].
  pose proof (Z.log2_nonneg (Zpos n)) as Ha.
  pose proof (Z.log2_nonneg (Zpos d)) as Hb.
  set (a := Z.log2 (Zpos n)) in *. set (b := Z.log2 (Zpos d)) in *.
  rewrite <- Z.add_1_r in Hn2, Hd2.
  assert (Hpa : 0 < 2 ^ a) by (apply Z.pow_pos_nonneg; lia).
  assert (Hpb : 0 < 2 ^ b) by (apply Z.pow_pos_nonneg; lia).
  rewrite Z.pow_add_r in Hn2, Hd2 by lia. change (2 ^ 1) with 2 in *.
  destruct (Z.leb_spec 0 (a - b)) as [He|He].
  - assert (Hab : 2 ^ a = 2 ^ b * 2 ^ (a - b))
      by (rewrite <- Z.pow_add_r by lia; f_equal; lia).
    assert (Hp : 0 < 2 ^ (a - b)) by (apply Z.pow_pos_nonneg; lia).
    destruct (Z.leb_spec (Zpos d * 2 ^ (a - b)) (Zpos n)) as [Hc|Hc]; cbv zeta.
    + destruct (Z.leb_spec 0 (a - b)); [|lia].
      rewrite Z.pow_add_r by lia. change (2 ^ 1) with 2. nia.
    + destruct (Z.leb_spec 0 (a - b - 1)) as [He'|He'].
      * replace (a - b - 1 + 1) with (a - b) by lia.
        assert (Hab' : 2 ^ (a - b) = 2 ^ (a - b - 1) * 2).
        { change 2 with (2 ^ 1) at 3. rewrite <- Z.pow_add_r by lia. f_equal. lia. }
        assert (0 < 2 ^ (a - b - 1)) by (apply Z.pow_pos_nonneg; lia).
        nia.
      * assert (a - b = 0) by lia.
        replace (- (a - b - 1) - 1) with 0 by lia.
        replace (- (a - b - 1)) with 1 by lia.
        replace (a - b) with 0 in * by lia.
        change (2 ^ 0) with 1 in *. change (2 ^ 1) with 2. nia.
  - assert (Hab : 2 ^ b = 2 ^ a * 2 ^ (- (a - b)))
      by (rewrite <- Z.pow_add_r by lia; f_equal; lia).
    assert (Hp : 0 < 2 ^ (- (a - b))) by (apply Z.pow_pos_nonneg; lia).
    destruct (Z.leb_spec (Zpos d) (Zpos n * 2 ^ (- (a - b)))) as [Hc|Hc]; cbv zeta.
    + destruct (Z.leb_spec 0 (a - b)); [lia|].
      assert (Hab' : 2 ^ (- (a - b)) = 2 ^ (- (a - b) - 1) * 2).
      { change 2 with (2 ^ 1) at 3. rewrite <- Z.pow_add_r by lia. f_equal. lia. }
      assert (0 < 2 ^ (- (a - b) - 1)) by (apply Z.pow_pos_nonneg; lia).
      nia.
    + destruct (Z.leb_spec 0 (a - b - 1)); [lia|].
      replace (- (a - b - 1) - 1) with (- (a - b)) by lia.
      replace (- (a - b - 1)) with (- (a - b) + 1) by lia.
      rewrite Z.pow_add_r by lia. change (2 ^ 1) with 2. nia.
Qed.

(** The rounding on Python's own examples: [0.15 * 100] is [15.0], while
    [0.29 * 100] is [28.999999999999996] and [0.57 * 100] is
    [56.99999999999999]; [0.1] is the float
    [3602879701896397 / 36028797018963968]. *)
Lemma percentage_examples :
  map Comm.percentage [15 # 100; 29 # 100; 57 # 100; - (29 # 100); 1 # 4; 3 # 1]%Q
  = [15; 28; 56; -28; 25; 100]
  /\ Qred (Comm.round64 (1 # 10)) = (3602879701896397 # 36028797018963968)%Q.
Proof. split; vm_compute; reflexivity. Qed.

Lemma percentage_clamped (offset : Q) : -100 <= Comm.percentage offset <= 100.
Proof.
  unfold Comm.percentage.
  destruct (clamp_cases (Comm.round64 (Comm.round64 offset * (100 # 1))))
    as [[-> _] | [[-> _] | [-> [Hlo Hhi]]]].
  - vm_compute. split; discriminate.
  - vm_compute. split; discriminate.
  - unfold Comm.py_int. apply quot_clamped.
    unfold Qle in Hlo, Hhi. cbn [Qnum Qden Qopp] in Hlo, Hhi. lia.
Qed.

(** Rounding commutes with negation: the float with the opposite sign is
    the nearest to the opposite number. *)
Lemma round64_opp (x : Q) : Comm.round64 (- x) = (- Comm.round64 x)%Q.
Proof.
  destruct x as [[|n|n] d].
  - reflexivity.
  - reflexivity.
  - change (Comm.round64 (- (Z.neg n # d))) with (Comm.round_pos n d).
    change (Comm.round64 (Z.neg n # d)) with (- Comm.round_pos n d)%Q.
    destruct (Comm.round_pos n d) as [a b]. unfold Qopp. cbn [Qnum Qden].
    now rewrite Z.opp_involutive.
Qed.

Lemma percentage_opp (offset : Q) :
  Comm.percentage (- offset) = - Comm.percentage offset.
Proof.
  unfold Comm.percentage.
  assert (Hx : forall y : Q, (- y * (100 # 1))%Q = (- (y * (100 # 1)))%Q).
  { intros [n d]. unfold Qmult, Qopp. cbn [Qnum Qden]. f_equal. lia. }
  rewrite round64_opp, Hx, round64_opp.
  set (x := Comm.round64 (Comm.round64 offset * (100 # 1))%Q).
  assert (Hint : forall y, Comm.py_int (- y) = - Comm.py_int y).
  { intros [n d]. unfold Comm.py_int. cbn [Qopp Qnum Qden].
    apply Z.quot_opp_l. lia. }
  destruct (clamp_cases x) as [[E Hx1] | [[E Hx1] | [E [Hlo Hhi]]]];
  destruct (clamp_cases (- x)) as [[E' Hx2] | [[E' Hx2] | [E' [Hlo' Hhi']]]];
  cbv zeta in E, E'; rewrite E, E'; try reflexivity; try (apply Hint);
  try (exfalso; lra).
Qed.

Lemma byte_bit (x m : Z) :
  Z.testbit (Z.land x 255) m = Z.testbit x m && (0 <=? m) && (m <? 8).
Proof.
  rewrite Z.land_spec. change 255 with (Z.ones 8).
  destruct (Z.leb_spec 0 m).
  - rewrite Z.testbit_ones_nonneg by lia. now rewrite andb_true_r.
  - rewrite !Z.testbit_neg_r by lia. reflexivity.
Qed.

Lemma shifted_byte_bit (x k n : Z) :
  0 <= k -> 0 <= n ->
  Z.testbit (Z.shiftl (Z.land x 255) k) n
  = Z.testbit x (n - k) && (k <=? n) && (n <? k + 8).
Proof.
  intros Hk Hn. rewrite Z.shiftl_spec by lia. rewrite byte_bit.
  destruct (Z.leb_spec 0 (n - k)), (Z.leb_spec k n); try lia;
  destruct (Z.ltb_spec (n - k) 8), (Z.ltb_spec n (k + 8)); try lia; reflexivity.
Qed.

Lemma packed_bit (a b c d n : Z) :
  0 <= n ->
  Z.testbit
    (Z.lor (Z.lor (Z.lor (Z.shiftl (Z.land a 255) 24) (Z.shiftl (Z.land b 255) 16))
                  (Z.shiftl (Z.land c 255) 8)) (Z.land d 255)) n
  = if n <? 8 then Z.testbit d n
    else if n <? 16 then Z.testbit c (n - 8)
    else if n <? 24 then Z.testbit b (n - 16)
    else if n <? 32 then Z.testbit a (n - 24)
    else false.
Proof.
  intros Hn. rewrite !Z.lor_spec, !shifted_byte_bit, byte_bit by lia.
  destruct (Z.ltb_spec n 8), (Z.ltb_spec n 16), (Z.ltb_spec n 24), (Z.ltb_spec n 32);
    try lia;
  repeat match goal with
  | |- context [Z.leb ?x ?y] => destruct (Z.leb_spec x y); try lia
  | |- context [Z.ltb ?x ?y] => destruct (Z.ltb_spec x y); try lia
  end;
  rewrite ?andb_false_r, ?andb_true_r, ?orb_false_r, ?orb_false_l; reflexivity.
Qed.

(** The command word under the white perspective, field by field. *)
Lemma form_command_white_bits (f t : Z) (ox oy : Q) (n : Z) :
  0 <= n ->
  Z.testbit (Comm.form_command f t ox oy WHITE) n
  = if n <? 8 then Z.testbit t n
    else if n <? 16 then Z.testbit (Comm.percentage oy) (n - 8)
    else if n <? 24 then Z.testbit (Comm.percentage ox) (n - 16)
    else if n <? 32 then Z.testbit f (n - 24)
    else false.
Proof. intros Hn. unfold Comm.form_command. now apply packed_bit. Qed.

Lemma field_of_bits (cmd x k : Z) :
  0 <= k ->
  (forall m, 0 <= m < 8 -> Z.testbit cmd (m + k) = Z.testbit x m) ->
  Z.land (Z.shiftr cmd k) 255 = Z.land x 255.
Proof.
  intros Hk H. apply Z.bits_inj'. intros m Hm.
  rewrite !byte_bit. destruct (Z.ltb_spec m 8).
  - rewrite Z.shiftr_spec by lia. rewrite H by lia. reflexivity.
  - now rewrite !andb_false_r.
Qed.

(** The four bytes of a white-perspective command. *)
Lemma form_command_white_bytes (f t : Z) (ox oy : Q) :
  let cmd := Comm.form_command f t ox oy WHITE in
  Z.land (Z.shiftr cmd 24) 255 = Z.land f 255
  /\ Z.land (Z.shiftr cmd 16) 255 = Z.land (Comm.percentage ox) 255
  /\ Z.land (Z.shiftr cmd 8) 255 = Z.land (Comm.percentage oy) 255
  /\ Z.land cmd 255 = Z.land t 255.
Proof.
  intros cmd. unfold cmd.
  rewrite <- (Z.shiftr_0_r (Comm.form_command f t ox oy WHITE)) at 4.
  repeat split; apply field_of_bits; try lia; intros m Hm;
    rewrite form_command_white_bits by lia;
    repeat match goal with
    | |- context [Z.ltb ?x ?y] => destruct (Z.ltb_spec x y); try lia
    end; f_equal; lia.
Qed.


(** The black-perspective command as a white-perspective command. *)
Lemma form_command_black_unfold (f t : Z) (ox oy : Q) :
  Comm.form_command f t ox oy BLACK
  = Comm.form_command (if f <=? 0 then 63 - f else f)
                      (if t <=? 0 then 63 - t else t)
                      (- ox) (- oy) WHITE.
Proof.
  unfold Comm.form_command. rewrite !mirror_guard_spec, !percentage_opp.
  reflexivity.
Qed.

Lemma form_command_white_range (f t : Z) (ox oy : Q) :
  0 <= Comm.form_command f t ox oy WHITE < 2 ^ 32.
Proof.
  assert (E : Z.land (Comm.form_command f t ox oy WHITE) (Z.ones 32)
              = Comm.form_command f t ox oy WHITE).
  { apply Z.bits_inj'. intros n Hn. rewrite Z.land_spec, Z.testbit_ones_nonneg by lia.
    rewrite form_command_white_bits by lia.
    repeat match goal with
    | |- context [Z.ltb ?x ?y] => destruct (Z.ltb_spec x y); try lia
    end; rewrite ?andb_true_r; reflexivity. }
  rewrite Z.land_ones in E by lia. rewrite <- E.
  apply Z.mod_pos_bound. lia.
Qed.

(** A value of a signed byte is determined by its low eight bits. *)
Lemma signed_byte_inj (x y : Z) :
  -128 <= x <= 127 -> -128 <= y <= 127 ->
  Z.land x 255 = Z.land y 255 -> x = y.
Proof.
  intros Hx Hy H. change 255 with (Z.ones 8) in H.
  rewrite !Z.land_ones in H by lia. change (2 ^ 8) with 256 in H.
  pose proof (Z.mod_pos_bound x 256 ltac:(lia)).
  pose proof (Z.mod_pos_bound y 256 ltac:(lia)).
  pose proof (Z.div_mod x 256 ltac:(lia)).
  pose proof (Z.div_mod y 256 ltac:(lia)).
  lia.
Qed.



Lemma transmission_white (f f' t : Z) (ox ox' oy : Q) :
  Comm.dat_values (Comm.issue_command_lines (Comm.form_command f t ox oy WHITE))
  = Comm.dat_values (Comm.issue_command_lines (Comm.form_command f' t ox' oy WHITE)).
Proof.
  rewrite !dat_values_low_bits. apply map_ext_in. intros i Hi.
  apply in_seq in Hi. f_equal.
  rewrite !form_command_white_bits by lia.
  repeat match goal with
  | |- context [Z.ltb ?x ?y] => destruct (Z.ltb_spec x y); try lia
  end; reflexivity.
Qed.

(** X1: every command word is a 32-bit value. *)
Theorem form_command_range (f t : Z) (ox oy : Q) (p : Color) :
  0 <= Comm.form_command f t ox oy p < 2 ^ 32.
Proof.
  destruct p; [apply form_command_white_range|].
  rewrite form_command_black_unfold. apply form_command_white_range.
Qed.

(** X2: decoding a white-perspective command: bits 31..24 are the low byte
    of the from-square, bits 23..16 of the x percentage, bits 15..8 of the y
    percentage and bits 7..0 of the to-square. *)
Theorem form_command_white_fields (f t : Z) (ox oy : Q) :
  let cmd := Comm.form_command f t ox oy WHITE in
  Z.land (Z.shiftr cmd 24) 255 = Z.land f 255
  /\ Z.land (Z.shiftr cmd 16) 255 = Z.land (Comm.percentage ox) 255
  /\ Z.land (Z.shiftr cmd 8) 255 = Z.land (Comm.percentage oy) 255
  /\ Z.land cmd 255 = Z.land t 255.
Proof. exact (form_command_white_bytes f t ox oy). Qed.

(** X3: on squares that fit a signed byte (all real squares and all slots)
    the white-perspective command determines both squares and both
    percentages. *)
Theorem form_command_white_injective (f t f' t' : Z) (ox oy ox' oy' : Q) :
  -128 <= f <= 127 -> -128 <= t <= 127 ->
  -128 <= f' <= 127 -> -128 <= t' <= 127 ->
  Comm.form_command f t ox oy WHITE = Comm.form_command f' t' ox' oy' WHITE ->
  f = f' /\ t = t'
  /\ Comm.percentage ox = Comm.percentage ox'
  /\ Comm.percentage oy = Comm.percentage oy'.
Proof.
  intros Hf Ht Hf' Ht' E.
  destruct (form_command_white_bytes f t ox oy) as (F1 & F2 & F3 & F4).
  destruct (form_command_white_bytes f' t' ox' oy') as (G1 & G2 & G3 & G4).
  cbv zeta in *. rewrite E in F1, F2, F3, F4.
  pose proof (percentage_clamped ox). pose proof (percentage_clamped oy).
  pose proof (percentage_clamped ox'). pose proof (percentage_clamped oy').
  repeat split; apply signed_byte_inj; try lia; congruence.
Qed.

(** X3 at work: an offset of a thousandth of a square is sent as 0. *)
Lemma form_command_white_injective_witness :
  Comm.percentage (1 # 1000) = Comm.percentage 0.
Proof.
  destruct (form_command_white_injective 12 28 12 28 (1 # 1000) 0 0 0)
    as (_ & _ & H & _); [lia|lia|lia|lia|reflexivity|exact H].
Defined.

(** X4: the black perspective is the white perspective with both offsets
    negated and with the squares the guard lets through (square 0 and the
    negative squares) replaced by [63 - square]. *)
Theorem form_command_black_as_white (f t : Z) (ox oy : Q) :
  Comm.form_command f t ox oy BLACK
  = Comm.form_command (if f <=? 0 then 63 - f else f)
                      (if t <=? 0 then 63 - t else t)
                      (- ox) (- oy) WHITE.
Proof. exact (form_command_black_unfold f t ox oy). Qed.

(** X5: the percentage of a finite offset, its product with 100 rounded as
    the float multiplication rounds it, lies in -100..100 whatever the
    offset, and negating the offset negates the percentage. *)
Theorem percentage_range_and_symmetry (offset : Q) :
  -100 <= Comm.percentage offset <= 100
  /\ Comm.percentage (- offset) = - Comm.percentage offset.
Proof. split; [apply percentage_clamped|apply percentage_opp]. Qed.

(** X6: what [issue_command] puts on the data line for a command built by
    [form_command] does not depend on the from-square or on the x offset:
    two relocations to the same square with the same y offset are sent as
    the same sixteen bits. *)
Theorem transmission_ignores_origin (f f' t : Z) (ox ox' oy : Q) (p : Color) :
  Comm.dat_values (Comm.issue_command_lines (Comm.form_command f t ox oy p))
  = Comm.dat_values (Comm.issue_command_lines (Comm.form_command f' t ox' oy p)).
Proof.
  destruct p; [apply transmission_white|].
  rewrite !form_command_black_unfold. apply transmission_white.
Qed.

(** *** More on the acknowledgment wait *)

Section WaitMore.
Import Comm.
Variable env : Env.

Lemma wait_loop_sound (fuel n : nat) (r : WaitResult) :
  (forall j, (j < n)%nat -> resp env j <> 0) ->
  wait_loop env (clock env 0) fuel n = Some r ->
  (returned r = RESPONSE_TIMEOUT \/ returned r = RESPONSE_SUCCESS)
  /\ (returned r = RESPONSE_SUCCESS ->
      exists k, samples r = S k
                /\ resp env k = 0
                /\ (DELAY_TIMEOUT_MIN_S <= sample_elapsed env k)%Q
                /\ (guard_elapsed env k < DELAY_TIMEOUT_MAX_S)%Q
                /\ forall j, (j < k)%nat -> resp env j <> 0).
Proof.
  revert n. induction fuel as [|fuel IH]; intros n Hhigh H; [discriminate|].
  cbn [wait_loop] in H.
  destruct (Qltb (clock env (S n) - clock env 0) DELAY_TIMEOUT_MAX_S) eqn:Hg.
  - destruct (resp env n =? 0) eqn:Hr.
    + apply Z.eqb_eq in Hr.
      destruct (Qltb (clock env (S (S n)) - clock env 0) DELAY_TIMEOUT_MIN_S) eqn:Ht;
        injection H as <-; cbn [returned samples].
      * split; [now left|]. discriminate.
      * split; [now right|]. intros _. exists n.
        split; [reflexivity|]. split; [exact Hr|].
        split; [now apply Qltb_ge|]. split; [now apply Qltb_lt|]. exact Hhigh.
    + apply Z.eqb_neq in Hr. apply (IH (S n)); [|exact H].
      intros j Hj. destruct (Nat.eq_dec j n) as [->|]; [exact Hr|].
      apply Hhigh. lia.
  - injection H as <-. cbn [returned]. split; [now left|]. discriminate.
Qed.

Lemma wait_loop_more_fuel (fuel k n : nat) (r : WaitResult) :
  wait_loop env (clock env 0) fuel n = Some r ->
  wait_loop env (clock env 0) (fuel + k) n = Some r.
Proof.
  revert n. induction fuel as [|fuel IH]; intros n H; [discriminate|].
  cbn [wait_loop Nat.add] in *.
  destruct (Qltb _ DELAY_TIMEOUT_MAX_S); [|exact H].
  destruct (resp env n =? 0); [exact H|]. now apply IH.
Qed.

Lemma wait_loop_samples (fuel n : nat) (r : WaitResult) :
  sleeps env ->
  (n <= 100)%nat ->
  (forall j, (j < n)%nat -> resp env j <> 0) ->
  wait_loop env (clock env 0) fuel n = Some r ->
  (samples r <= 100)%nat.
Proof.
  intros Hs. revert n.
  induction fuel as [|fuel IH]; intros n Hn Hhigh H; [discriminate|].
  cbn [wait_loop] in H.
  destruct (Qltb (clock env (S n) - clock env 0) DELAY_TIMEOUT_MAX_S) eqn:Hg.
  - apply Qltb_lt in Hg.
    pose proof (sleeps_guard_bound env Hs n Hhigh Hg) as Hlt.
    destruct (resp env n =? 0) eqn:Hr.
    + destruct (Qltb _ DELAY_TIMEOUT_MIN_S); injection H as <-; cbn [samples]; lia.
    + apply Z.eqb_neq in Hr. apply (IH (S n)); [lia| |exact H].
      intros j Hj. destruct (Nat.eq_dec j n) as [->|]; [exact Hr|].
      apply Hhigh. lia.
  - injection H as <-. cbn [samples]. exact Hn.
Qed.

End WaitMore.

(** X7: a wait only returns RESPONSE_TIMEOUT or RESPONSE_SUCCESS, and it
    returns RESPONSE_SUCCESS only if the last sample it took read low with
    at least DELAY_TIMEOUT_MIN_S elapsed, under a guard that still held,
    every earlier sample having read high. *)
Theorem wait_for_signal_sound (env : Comm.Env) (fuel : nat) (r : Comm.WaitResult) :
  Comm.wait_for_signal env fuel = Some r ->
  (Comm.returned r = Comm.RESPONSE_TIMEOUT \/ Comm.returned r = Comm.RESPONSE_SUCCESS)
  /\ (Comm.returned r = Comm.RESPONSE_SUCCESS ->
      exists k, Comm.samples r = S k
                /\ Comm.resp env k = 0
                /\ (Comm.DELAY_TIMEOUT_MIN_S <= Comm.sample_elapsed env k)%Q
                /\ (Comm.guard_elapsed env k < Comm.DELAY_TIMEOUT_MAX_S)%Q
                /\ forall j, (j < k)%nat -> Comm.resp env j <> 0).
Proof.
  intros H. apply (wait_loop_sound env fuel 0 r); [|exact H]. intros j Hj. lia.
Qed.

(** X8: on a clock where every sleep after a sample that read high lasts
    at least DELAY_WAIT_S (and the clock does not go back between the start
    and the first guard) the wait returns within a hundred and one
    iterations: with fuel for a hundred and one or more it returns the same
    result, after at most a hundred samples of the response line. *)
Theorem wait_for_signal_bounded (env : Comm.Env) (fuel : nat) :
  Comm.sleeps env -> (101 <= fuel)%nat ->
  exists r, Comm.wait_for_signal env fuel = Some r
            /\ Comm.wait_for_signal env 101 = Some r
            /\ (Comm.samples r <= 100)%nat.
Proof.
  intros Hs Hf.
  destruct (wait_for_signal_total env 101 Hs (Nat.le_refl _)) as [r Hr].
  exists r. split; [|split; [exact Hr|]].
  - replace fuel with (101 + (fuel - 101))%nat by lia.
    apply wait_loop_more_fuel. exact Hr.
  - apply (wait_loop_samples env 101 0 r Hs); [lia| |exact Hr].
    intros j Hj. lia.
Qed.

(** * Further properties of the movement module *)

Import Movement.

Lemma off_board_square_negative (t : PieceType) (c p : Color) :
  Comm.off_board_square t c p < 0.
Proof. destruct t, c, p; reflexivity. Qed.

Section PlanFacts.

Import Movement.

Context {Offset : Type}.
Variable SQUARE_CENTER : Offset.
Variable form : Z -> Z -> Offset -> Color -> Z.
Variable link : nat -> Z -> Response.

Local Abbreviation move_piece := (Movement.move_piece SQUARE_CENTER form link).
Local Abbreviation reflect_move := (Movement.reflect_move SQUARE_CENTER form link).

(** What one [move_piece] adds to the record of a session. *)
Lemma move_piece_counts (f t : Z) (prev : Response) (w : World) :
  exists r w' issued,
    move_piece f t prev w = (Ok r, w')
    /\ chess_board (board w') = chess_board (board w)
    /\ sent w' = sent w ++ issued
    /\ (length issued <= 1)%nat
    /\ (prev = COMMAND_SUCCESS ->
        squares issued = [(f, t)]
        /\ r = link (length (sent w))
                 (form f t (offsets (board w) f) (perspective (board w)))
        /\ Forall (fun e => rel_response e = r) issued)
    /\ (prev = COMMAND_FAILURE -> issued = [] /\ r = COMMAND_FAILURE).
Proof.
  destruct prev.
  - destruct (move_piece_issues SQUARE_CENTER form link f t w)
      as (b' & E & Hcb & _).
    cbv zeta in E. eexists _, _, _. split; [exact E|].
    split; [exact Hcb|]. split; [reflexivity|]. split; [cbn; lia|].
    split; [|discriminate]. intros _. split; [reflexivity|].
    split; [reflexivity|]. apply List.Forall_cons; [reflexivity|apply List.Forall_nil].
  - rewrite move_piece_skips. exists COMMAND_FAILURE, w, [].
    split; [reflexivity|]. split; [reflexivity|].
    split; [now rewrite app_nil_r|]. split; [cbn; lia|].
    split; [discriminate|]. intros _. split; reflexivity.
Qed.

Ltac count_step f t prev w r w' issued E Hcb Hs Hlen Hok Hko :=
  destruct (move_piece_counts f t prev w)
    as (r & w' & issued & E & Hcb & Hs & Hlen & Hok & Hko);
  rewrite (bind_step _ _ _ _ _ E).

(** X9: a move that is neither castling nor a capture nor a promotion is
    one relocation from the origin to the destination, and the status of
    the move is the status of that command. *)
Theorem reflect_move_plain (move : Chess.Move) (w : World) :
  Chess.is_castling (chess_board (board w)) move = false ->
  Chess.is_capture (chess_board (board w)) move = false ->
  Chess.promotion move = None ->
  let command := form (Chess.from_square move) (Chess.to_square move)
                      (offsets (board w) (Chess.from_square move))
                      (perspective (board w)) in
  let response := link (length (sent w)) command in
  fst (reflect_move move w) = Ok response
  /\ sent (snd (reflect_move move w))
     = sent w ++ [mkRelocation (Chess.from_square move) (Chess.to_square move)
                               command response].
Proof.
  intros Hcastle Hcap Hpromo command response.
  assert (Hep : Chess.is_en_passant (chess_board (board w)) move = false).
  { unfold Chess.is_capture in Hcap. apply orb_false_iff in Hcap. apply Hcap. }
  unfold Movement.reflect_move.
  rewrite bind_get, Hcastle, bind_assoc, bind_get, Hcap, bind_ret,
    bind_assoc, bind_get, Hep, bind_ret, Hpromo, bind_ret.
  cbn [fst snd].
  destruct (move_piece_issues SQUARE_CENTER form link
              (Chess.from_square move) (Chess.to_square move) w)
    as (b' & E & _).
  cbv zeta in E. rewrite (bind_step _ _ _ _ _ E). split; reflexivity.
Qed.

(** X10: no call of [reflect_move] issues more than three commands,
    whatever the move, the board and the link. *)
Theorem reflect_move_at_most_three (move : Chess.Move) (w : World) :
  exists issued,
    sent (snd (reflect_move move w)) = sent w ++ issued
    /\ (length issued <= 3)%nat.
Proof.
  unfold Movement.reflect_move. rewrite bind_get.
  destruct (Chess.is_castling (chess_board (board w)) move) eqn:Hcastle.
  - rewrite bind_lift.
    destruct (castle_rook_move (chess_board (board w)) move) as [[rook_move|]|e];
      [destruct (Chess.Move_bool rook_move)| |];
      try (exists []; split; [now rewrite app_nil_r | cbn; lia]).
    count_step (Chess.from_square move) (Chess.to_square move) COMMAND_SUCCESS w
               r1 w1 i1 E1 Hcb1 Hs1 Hl1 Hok1 Hko1.
    count_step (Chess.from_square rook_move) (Chess.to_square rook_move) r1 w1
               r2 w2 i2 E2 Hcb2 Hs2 Hl2 Hok2 Hko2.
    cbn [snd ret]. exists (i1 ++ i2).
    split; [rewrite Hs2, Hs1, app_assoc; reflexivity|].
    rewrite length_app. lia.
  - rewrite bind_assoc, bind_get.
    match goal with |- context [bind (if _ then _ else _) ?K w] => set (rest := K) end.
    assert (Hrest : Chess.is_en_passant (chess_board (board w)) move = false ->
              forall r1 w1, chess_board (board w1) = chess_board (board w) ->
              exists issued,
                sent (snd (rest r1 w1)) = sent w1 ++ issued
                /\ (length issued <= 2)%nat).
    { intros Hep r1 w1 Hcb. unfold rest.
      rewrite bind_assoc, bind_get, Hcb, Hep, bind_ret.
      destruct (Chess.promotion move) as [promoted|].
      - rewrite bind_assoc, bind_piece_attrs.
        destruct (rb_piece_at (board w1) (Chess.from_square move)) as [removed|].
        + rewrite bind_assoc.
          count_step (Chess.from_square move) (off_board_place removed) r1 w1
                     r2 w2 i2 E2 Hcb2 Hs2 Hl2 Hok2 Hko2.
          rewrite bind_ret. cbn [fst snd].
          count_step (Comm.off_board_square promoted (color removed) WHITE)
                     (Chess.to_square move) r2 w2
                     r3 w3 i3 E3 Hcb3 Hs3 Hl3 Hok3 Hko3.
          cbn [snd ret]. exists (i2 ++ i3).
          split; [rewrite Hs3, Hs2, app_assoc; reflexivity|].
          rewrite length_app. lia.
        + exists []. split; [now rewrite app_nil_r | cbn; lia].
      - rewrite bind_ret. cbn [fst snd].
        count_step (Chess.from_square move) (Chess.to_square move) r1 w1
                   r3 w3 i3 E3 Hcb3 Hs3 Hl3 Hok3 Hko3.
        cbn [snd ret]. exists i3. split; [exact Hs3|lia]. }
    destruct (Chess.is_capture (chess_board (board w)) move) eqn:Hcap.
    + rewrite bind_assoc, bind_piece_attrs.
      destruct (rb_piece_at (board w) (Chess.to_square move)) as [captured|] eqn:Hto.
      2:{ exists []. split; [now rewrite app_nil_r | cbn; lia]. }
      count_step (Chess.to_square move) (off_board_place captured) COMMAND_SUCCESS w
                 r1 w1 i1 E1 Hcb1 Hs1 Hl1 Hok1 Hko1.
      destruct (Hrest) with (r1 := r1) (w1 := w1) as (i2 & Hs2 & Hl2).
      { destruct (Chess.is_en_passant (chess_board (board w)) move) eqn:Hep;
          [|reflexivity].
        apply en_passant_is_capture in Hep. destruct Hep as (_ & Hnone & _).
        unfold rb_piece_at in Hto. congruence. }
      { exact Hcb1. }
      exists (i1 ++ i2). split; [rewrite Hs2, Hs1, app_assoc; reflexivity|].
      rewrite length_app. lia.
    + rewrite bind_ret.
      destruct (Hrest) with (r1 := COMMAND_SUCCESS) (w1 := w) as (i2 & Hs2 & Hl2).
      { unfold Chess.is_capture in Hcap. apply orb_false_iff in Hcap. apply Hcap. }
      { reflexivity. }
      exists i2. split; [exact Hs2|lia].
Qed.

(** The table of [castle_rook_move]. *)
Lemma castle_rook_move_table (b : Chess.Board) (king_move rook_move : Chess.Move) :
  castle_rook_move b king_move = Ok (Some rook_move) ->
  Chess.type_on b KING (Chess.from_square king_move) = true
  /\ Chess.is_castling b king_move = true
  /\ ((Chess.to_square king_move = 6 /\ rook_move = Chess.mkMove 7 5 None)
      \/ (Chess.to_square king_move = 2 /\ rook_move = Chess.mkMove 0 3 None)
      \/ (Chess.to_square king_move = 62 /\ rook_move = Chess.mkMove 63 61 None)
      \/ (Chess.to_square king_move = 58 /\ rook_move = Chess.mkMove 56 59 None)).
Proof.
  unfold castle_rook_move, Chess.type_on.
  destruct (Chess.piece_at b (Chess.from_square king_move)) as [p|]; [|discriminate].
  cbn [attr rbind].
  destruct (PieceType_eqb (piece_type p) KING) eqn:Hk; [|discriminate].
  destruct (Chess.is_castling b king_move) eqn:Hc; [|discriminate].
  cbn [andb]. unfold Chess.G1, Chess.C1, Chess.G8, Chess.C8,
    Chess.H1, Chess.F1, Chess.A1, Chess.D1, Chess.H8, Chess.F8, Chess.A8, Chess.D8.
  destruct (Z.eqb_spec (Chess.to_square king_move) 6);
    [intros H; injection H as H; subst rook_move; repeat split; auto 8|].
  destruct (Z.eqb_spec (Chess.to_square king_move) 2);
    [intros H; injection H as H; subst rook_move; repeat split; auto 8|].
  destruct (Z.eqb_spec (Chess.to_square king_move) 62);
    [intros H; injection H as H; subst rook_move; repeat split; auto 8|].
  destruct (Z.eqb_spec (Chess.to_square king_move) 58);
    [intros H; injection H as H; subst rook_move; repeat split; auto 8|].
  discriminate.
Qed.

(** When the move is castling its rook move is looked up without raising,
    and there is none unless the king goes to g1, c1, g8 or c8. *)
Lemma castle_rook_move_castling (b : Chess.Board) (king_move : Chess.Move) :
  Chess.is_castling b king_move = true ->
  exists rook_move, castle_rook_move b king_move = Ok rook_move
    /\ (Chess.to_square king_move <> 6 -> Chess.to_square king_move <> 2 ->
        Chess.to_square king_move <> 62 -> Chess.to_square king_move <> 58 ->
        rook_move = None).
Proof.
  intros Hc. unfold castle_rook_move.
  assert (Hk : Chess.type_on b KING (Chess.from_square king_move) = true).
  { unfold Chess.is_castling in Hc.
    destruct (Chess.type_on b KING (Chess.from_square king_move)); [reflexivity|discriminate]. }
  unfold Chess.type_on in Hk.
  destruct (Chess.piece_at b (Chess.from_square king_move)) as [p|]; [|discriminate].
  cbn [attr rbind]. rewrite Hk, Hc. cbn [andb].
  unfold Chess.G1, Chess.C1, Chess.G8, Chess.C8.
  destruct (Z.eqb_spec (Chess.to_square king_move) 6); [eexists; split; [reflexivity|]; lia|].
  destruct (Z.eqb_spec (Chess.to_square king_move) 2); [eexists; split; [reflexivity|]; lia|].
  destruct (Z.eqb_spec (Chess.to_square king_move) 62); [eexists; split; [reflexivity|]; lia|].
  destruct (Z.eqb_spec (Chess.to_square king_move) 58); [eexists; split; [reflexivity|]; lia|].
  eexists; split; reflexivity.
Qed.

(** X11: a castling move whose king does not go to g1, c1, g8 or c8
    (castling written as king-takes-rook, say) returns [COMMAND_FAILURE]
    with nothing issued and the world untouched. *)
Theorem reflect_move_castling_unsupported (move : Chess.Move) (w : World) :
  Chess.is_castling (chess_board (board w)) move = true ->
  Chess.to_square move <> 6 -> Chess.to_square move <> 2 ->
  Chess.to_square move <> 62 -> Chess.to_square move <> 58 ->
  reflect_move move w = (Ok COMMAND_FAILURE, w).
Proof.
  intros Hc H1 H2 H3 H4.
  destruct (castle_rook_move_castling _ _ Hc) as (rm & E & Hnone).
  rewrite (Hnone H1 H2 H3 H4) in E.
  unfold Movement.reflect_move. rewrite bind_get, Hc, bind_lift, E. reflexivity.
Qed.

(** X12: [reflect_move] returns a status (it does not raise) when a piece
    stands on the origin square and, if python-chess calls the move a
    capture, on the destination square. *)
Theorem reflect_move_returns (move : Chess.Move) (w : World) :
  rb_piece_at (board w) (Chess.from_square move) <> None ->
  (Chess.is_capture (chess_board (board w)) move = true ->
   rb_piece_at (board w) (Chess.to_square move) <> None) ->
  exists r, fst (reflect_move move w) = Ok r.
Proof.
  intros Hfrom Hto.
  unfold Movement.reflect_move. rewrite bind_get.
  destruct (Chess.is_castling (chess_board (board w)) move) eqn:Hcastle.
  - destruct (castle_rook_move_castling _ _ Hcastle) as (rm & E & _).
    rewrite bind_lift, E.
    destruct rm as [rook_move|]; [destruct (Chess.Move_bool rook_move)|];
      try (eexists; reflexivity).
    count_step (Chess.from_square move) (Chess.to_square move) COMMAND_SUCCESS w
               r1 w1 i1 E1 Hcb1 Hs1 Hl1 Hok1 Hko1.
    count_step (Chess.from_square rook_move) (Chess.to_square rook_move) r1 w1
               r2 w2 i2 E2 Hcb2 Hs2 Hl2 Hok2 Hko2.
    eexists; reflexivity.
  - rewrite bind_assoc, bind_get.
    match goal with |- context [bind (if _ then _ else _) ?K w] => set (rest := K) end.
    assert (Hrest : Chess.is_en_passant (chess_board (board w)) move = false ->
              forall r1 w1, chess_board (board w1) = chess_board (board w) ->
              exists r, fst (rest r1 w1) = Ok r).
    { intros Hep r1 w1 Hcb. unfold rest.
      rewrite bind_assoc, bind_get, Hcb, Hep, bind_ret.
      destruct (Chess.promotion move) as [promoted|].
      - rewrite bind_assoc, bind_piece_attrs.
        unfold rb_piece_at in *. rewrite Hcb.
        destruct (Chess.piece_at (chess_board (board w)) (Chess.from_square move))
          as [removed|]; [|congruence].
        rewrite bind_assoc.
        count_step (Chess.from_square move) (off_board_place removed) r1 w1
                   r2 w2 i2 E2 Hcb2 Hs2 Hl2 Hok2 Hko2.
        rewrite bind_ret. cbn [fst snd].
        count_step (Comm.off_board_square promoted (color removed) WHITE)
                   (Chess.to_square move) r2 w2
                   r3 w3 i3 E3 Hcb3 Hs3 Hl3 Hok3 Hko3.
        eexists; reflexivity.
      - rewrite bind_ret. cbn [fst snd].
        count_step (Chess.from_square move) (Chess.to_square move) r1 w1
                   r3 w3 i3 E3 Hcb3 Hs3 Hl3 Hok3 Hko3.
        eexists; reflexivity. }
    destruct (Chess.is_capture (chess_board (board w)) move) eqn:Hcap.
    + rewrite bind_assoc, bind_piece_attrs.
      destruct (rb_piece_at (board w) (Chess.to_square move)) as [captured|] eqn:Hcapt;
        [|exfalso; now apply Hto].
      count_step (Chess.to_square move) (off_board_place captured) COMMAND_SUCCESS w
                 r1 w1 i1 E1 Hcb1 Hs1 Hl1 Hok1 Hko1.
      apply Hrest; [|exact Hcb1].
      destruct (Chess.is_en_passant (chess_board (board w)) move) eqn:Hep;
        [|reflexivity].
      apply en_passant_is_capture in Hep. destruct Hep as (_ & Hnone & _).
      unfold rb_piece_at in Hcapt. congruence.
    + rewrite bind_ret. apply Hrest; [|reflexivity].
      unfold Chess.is_capture in Hcap. apply orb_false_iff in Hcap. apply Hcap.
Qed.

End PlanFacts.

Section AcknowledgedPlan.

Import Movement.

Context {Offset : Type}.
Variable SQUARE_CENTER : Offset.
Variable form : Z -> Z -> Offset -> Color -> Z.

Local Abbreviation acknowledged := (fun (_ : nat) (_ : Z) => COMMAND_SUCCESS).
Local Abbreviation reflect_move := (Movement.reflect_move SQUARE_CENTER form acknowledged).

Lemma move_piece_acknowledged (f t : Z) (w : World) :
  exists w',
    Movement.move_piece SQUARE_CENTER form acknowledged f t COMMAND_SUCCESS w
    = (Ok COMMAND_SUCCESS, w')
    /\ chess_board (board w') = chess_board (board w)
    /\ exists e, sent w' = sent w ++ [e] /\ squares [e] = [(f, t)].
Proof.
  destruct (move_piece_issues SQUARE_CENTER form acknowledged f t w)
    as (b' & E & Hcb & _).
  cbv zeta in E. eexists. split; [exact E|]. split; [exact Hcb|].
  eexists. split; reflexivity.
Qed.

Ltac ack_step f t w w' E Hcb e Hs Hsq :=
  destruct (move_piece_acknowledged f t w) as (w' & E & Hcb & e & Hs & Hsq);
  rewrite (bind_step _ _ _ _ _ E).

(** X13: castling on a link that acknowledges: the king's relocation, then
    the relocation [castle_rook_move] gives for the rook, and a success. *)
Theorem reflect_move_castling_plan (move rook_move : Chess.Move) (w : World) :
  Chess.is_castling (chess_board (board w)) move = true ->
  castle_rook_move (chess_board (board w)) move = Ok (Some rook_move) ->
  fst (reflect_move move w) = Ok COMMAND_SUCCESS
  /\ exists issued,
       sent (snd (reflect_move move w)) = sent w ++ issued
       /\ squares issued
          = [(Chess.from_square move, Chess.to_square move);
             (Chess.from_square rook_move, Chess.to_square rook_move)].
Proof.
  intros Hc Hr.
  assert (Hb : Chess.Move_bool rook_move = true).
  { destruct (castle_rook_move_table _ _ _ Hr) as (_ & _ & [[_ ->]|[[_ ->]|[[_ ->]|[_ ->]]]]);
      reflexivity. }
  unfold Movement.reflect_move. rewrite bind_get, Hc, bind_lift, Hr, Hb.
  ack_step (Chess.from_square move) (Chess.to_square move) w w1 E1 Hcb1 e1 Hs1 Hq1.
  ack_step (Chess.from_square rook_move) (Chess.to_square rook_move) w1 w2 E2 Hcb2 e2 Hs2 Hq2.
  cbn [fst snd ret]. split; [reflexivity|].
  exists [e1; e2]. split.
  - rewrite Hs2, Hs1, <- app_assoc. reflexivity.
  - unfold squares in *. cbn [map] in *. congruence.
Qed.

(** X14: a move that is neither castling nor en passant, on a link that
    acknowledges: the captured piece (if any) goes to its slot first; then
    either the piece moves, or (promotion) it goes to its own slot and the
    promoted piece comes from the slot of its type in the same colour. *)
Theorem reflect_move_regular_plan (move : Chess.Move) (p : Piece) (w : World) :
  Chess.is_castling (chess_board (board w)) move = false ->
  Chess.is_en_passant (chess_board (board w)) move = false ->
  rb_piece_at (board w) (Chess.from_square move) = Some p ->
  (Chess.is_capture (chess_board (board w)) move = true ->
   rb_piece_at (board w) (Chess.to_square move) <> None) ->
  fst (reflect_move move w) = Ok COMMAND_SUCCESS
  /\ exists issued,
       sent (snd (reflect_move move w)) = sent w ++ issued
       /\ squares issued
          = (if Chess.is_capture (chess_board (board w)) move then
               match rb_piece_at (board w) (Chess.to_square move) with
               | Some captured => [(Chess.to_square move, off_board_place captured)]
               | None => []
               end
             else [])
            ++ match Chess.promotion move with
               | Some promoted =>
                   [(Chess.from_square move, off_board_place p);
                    (Comm.off_board_square promoted (color p) WHITE,
                     Chess.to_square move)]
               | None => [(Chess.from_square move, Chess.to_square move)]
               end.
Proof.
  intros Hcastle Hep Hfrom Hto.
  unfold Movement.reflect_move.
  rewrite bind_get, Hcastle, bind_assoc, bind_get.
  match goal with |- context [bind (if _ then _ else _) ?K w] => set (rest := K) end.
  assert (Hrest :
    forall w1, chess_board (board w1) = chess_board (board w) ->
    fst (rest COMMAND_SUCCESS w1) = Ok COMMAND_SUCCESS
    /\ exists issued,
         sent (snd (rest COMMAND_SUCCESS w1)) = sent w1 ++ issued
         /\ squares issued
            = match Chess.promotion move with
              | Some promoted =>
                  [(Chess.from_square move, off_board_place p);
                   (Comm.off_board_square promoted (color p) WHITE,
                    Chess.to_square move)]
              | None => [(Chess.from_square move, Chess.to_square move)]
              end).
  { intros w1 Hcb. unfold rest.
    rewrite bind_assoc, bind_get, Hcb, Hep, bind_ret.
    destruct (Chess.promotion move) as [promoted|].
    - rewrite bind_assoc, bind_piece_attrs.
      unfold rb_piece_at in *. rewrite Hcb, Hfrom. rewrite bind_assoc.
      ack_step (Chess.from_square move) (off_board_place p) w1 w2 E2 Hcb2 e2 Hs2 Hq2.
      rewrite bind_ret. cbn [fst snd].
      ack_step (Comm.off_board_square promoted (color p) WHITE)
               (Chess.to_square move) w2 w3 E3 Hcb3 e3 Hs3 Hq3.
      cbn [fst snd ret]. split; [reflexivity|].
      exists [e2; e3]. split.
      + rewrite Hs3, Hs2, <- app_assoc. reflexivity.
      + unfold squares in *. cbn [map] in *. congruence.
    - rewrite bind_ret. cbn [fst snd].
      ack_step (Chess.from_square move) (Chess.to_square move) w1 w3 E3 Hcb3 e3 Hs3 Hq3.
      cbn [fst snd ret]. split; [reflexivity|].
      exists [e3]. split; [exact Hs3|exact Hq3]. }
  destruct (Chess.is_capture (chess_board (board w)) move) eqn:Hcap.
  - rewrite bind_assoc, bind_piece_attrs.
    destruct (rb_piece_at (board w) (Chess.to_square move)) as [captured|] eqn:Hcapt;
      [|exfalso; now apply Hto].
    ack_step (Chess.to_square move) (off_board_place captured) w w1 E1 Hcb1 e1 Hs1 Hq1.
    destruct (Hrest w1 Hcb1) as (Hres & issued & Hs & Hq).
    split; [exact Hres|].
    exists (e1 :: issued). split.
    + rewrite Hs, Hs1, <- app_assoc. reflexivity.
    + unfold squares in *. cbn [map app] in *. rewrite Hq. congruence.
  - rewrite bind_ret. destruct (Hrest w eq_refl) as (Hres & issued & Hs & Hq).
    split; [exact Hres|]. exists issued. split; [exact Hs|exact Hq].
Qed.

End AcknowledgedPlan.

(** *** Geometry and move identification *)

Lemma square_file_mod (square : Z) : Chess.square_file square = square mod 8.
Proof.
  unfold Chess.square_file. change 7 with (Z.ones 3).
  rewrite Z.land_ones by lia. reflexivity.
Qed.

Lemma square_rank_div (square : Z) : Chess.square_rank square = square / 8.
Proof.
  unfold Chess.square_rank. rewrite Z.shiftr_div_pow2 by lia. reflexivity.
Qed.

(** X15: for a diagonal step of one file between two real squares the
    square [en_passant_captured] computes is a real square on the rank of
    the origin and on the file of the destination. *)
Theorem en_passant_captured_geometry (move : Chess.Move) :
  0 <= Chess.from_square move <= 63 ->
  0 <= Chess.to_square move <= 63 ->
  Z.abs (Chess.to_square move - Chess.from_square move) = 7
  \/ Z.abs (Chess.to_square move - Chess.from_square move) = 9 ->
  Z.abs (Chess.square_file (Chess.to_square move)
         - Chess.square_file (Chess.from_square move)) = 1 ->
  0 <= en_passant_captured move <= 63
  /\ Chess.square_rank (en_passant_captured move)
     = Chess.square_rank (Chess.from_square move)
  /\ Chess.square_file (en_passant_captured move)
     = Chess.square_file (Chess.to_square move).
Proof.
  destruct move as [f t pr]. cbn [Chess.from_square Chess.to_square].
  unfold en_passant_captured. cbn [Chess.from_square Chess.to_square].
  rewrite !square_file_mod, !square_rank_div.
  intros Hf Ht Hd Hfile.
  destruct (Z.gtb_spec t f); Z.to_euclidean_division_equations; lia.
Qed.

(** X16: a rook move given by [castle_rook_move] stays on the rank of the
    king's destination, starts on file a or h, ends next to the king's
    destination and passes over it, and carries no promotion. *)
Theorem castle_rook_move_geometry (b : Chess.Board) (king_move rook_move : Chess.Move) :
  castle_rook_move b king_move = Ok (Some rook_move) ->
  Chess.square_rank (Chess.from_square rook_move)
  = Chess.square_rank (Chess.to_square king_move)
  /\ Chess.square_rank (Chess.to_square rook_move)
     = Chess.square_rank (Chess.to_square king_move)
  /\ (Chess.square_file (Chess.from_square rook_move) = 0
      \/ Chess.square_file (Chess.from_square rook_move) = 7)
  /\ Z.abs (Chess.to_square rook_move - Chess.to_square king_move) = 1
  /\ (Chess.from_square rook_move < Chess.to_square king_move
        < Chess.to_square rook_move
      \/ Chess.to_square rook_move < Chess.to_square king_move
           < Chess.from_square rook_move)
  /\ Chess.promotion rook_move = None.
Proof.
  intros H.
  destruct (castle_rook_move_table b king_move rook_move H)
    as (_ & _ & [[-> ->]|[[-> ->]|[[-> ->]|[-> ->]]]]);
    cbn [Chess.from_square Chess.to_square Chess.promotion];
    vm_compute; repeat split; auto; try discriminate.
Qed.

Lemma opiece_eqb_refl (o : option Piece) : Chess.opiece_eqb o o = true.
Proof. destruct o as [[[] []]|]; reflexivity. Qed.

(** The three branches never raise. *)
Lemma identify_simple_returns (prev_board current_board : Chess.Board) (d a : Z) :
  Chess.piece_at prev_board d <> None ->
  exists m, identify_simple prev_board current_board d a = Ok m.
Proof.
  intros Hd. unfold identify_simple, is_en_passant.
  cbn [Chess.from_square Chess.to_square].
  destruct (Chess.piece_at prev_board d) as [p|]; [|congruence].
  cbn [attr rbind].
  repeat match goal with
  | |- context [if ?c then _ else _] => destruct c; cbn [rbind attr]
  | |- context [match Chess.piece_at ?b ?s with _ => _ end] =>
      destruct (Chess.piece_at b s); cbn [rbind attr]
  end; eauto.
Qed.

Lemma identify_castling_returns (prev_board current_board : Chess.Board)
    (d0 d1 a0 a1 : Z) :
  Chess.piece_at prev_board d0 <> None ->
  Chess.piece_at prev_board d1 <> None ->
  Chess.piece_at current_board a0 <> None ->
  exists m, identify_castling prev_board current_board d0 d1 a0 a1 = Ok m.
Proof.
  intros H0 H1 Ha. unfold identify_castling.
  destruct (Chess.piece_at prev_board d0) as [p0|] eqn:E0; [|congruence].
  destruct (Chess.piece_at current_board a0) as [q0|] eqn:Ea; [|congruence].
  cbn [attr rbind].
  set (dis := if negb (PieceType_eqb (piece_type p0) KING) then (d1, d0) else (d0, d1)).
  set (app := if negb (PieceType_eqb (piece_type q0) KING) then (a1, a0) else (a0, a1)).
  cbn [Chess.from_square Chess.to_square].
  destruct (Chess.is_castling prev_board (Chess.mkMove dis.1 app.1 None)) eqn:Hc;
    cbn [negb]; [|eauto].
  destruct (castle_rook_move_castling _ _ Hc) as (rm & Erm & _).
  assert (Hk : Chess.piece_at prev_board dis.1 <> None).
  { unfold dis. destruct (negb _); cbn [fst]; congruence. }
  destruct (Chess.piece_at prev_board dis.1) as [k|]; [|congruence].
  cbn [attr rbind].
  destruct (_ || _); [eauto|]. rewrite Erm. cbn [rbind].
  destruct rm as [m|]; [destruct (Chess.Move_eqb _ m)|]; eauto.
Qed.

(** X17: [identify_move] returns (a move or none) for every pair of
    snapshots: no branch reads an attribute of [None]. *)
Theorem identify_move_never_raises (prev_board current_board : Chess.Board) :
  exists m, identify_move prev_board current_board = Ok m.
Proof.
  unfold identify_move.
  pose proof (dissapeared_occupied prev_board current_board) as Hd.
  pose proof (appeared_occupied prev_board current_board) as Ha.
  destruct (dissapeared prev_board current_board) as [|d0 [|d1 [|d2 dis]]];
  destruct (appeared prev_board current_board) as [|a0 [|a1 [|a2 app]]];
    try (eexists; reflexivity).
  - apply identify_simple_returns.
    destruct (Hd d0) as [p ->]; [now left|discriminate].
  - unfold identify_en_passant.
    repeat match goal with
    | |- context [if ?c then _ else _] => destruct c
    end; eauto.
  - apply identify_castling_returns.
    + destruct (Hd d0) as [p ->]; [now left|discriminate].
    + destruct (Hd d1) as [p ->]; [right; now left|discriminate].
    + destruct (Ha a0) as [p ->]; [now left|discriminate].
Qed.

(** X18: a move is only ever identified from a vacated square to a newly
    occupied one. *)
Theorem identify_move_endpoints (prev_board current_board : Chess.Board)
    (m : Chess.Move) :
  identify_move prev_board current_board = Ok (Some m) ->
  In (Chess.from_square m) (dissapeared prev_board current_board)
  /\ In (Chess.to_square m) (appeared prev_board current_board).
Proof.
  unfold identify_move.
  destruct (dissapeared prev_board current_board) as [|d0 [|d1 [|d2 dis]]];
  destruct (appeared prev_board current_board) as [|a0 [|a1 [|a2 app]]];
    try discriminate.
  - unfold identify_simple.
    destruct (is_en_passant _ _) as [[|]|]; cbn [rbind]; try discriminate.
    destruct (Chess.is_castling _ _); try discriminate.
    destruct (attr _) as [moved|]; cbn [rbind]; try discriminate.
    destruct (_ && _).
    + destruct (Chess.piece_at current_board _) as [q|]; try discriminate.
      cbn [rbind]. destruct (negb _); try discriminate.
      intros [= <-]. cbn. auto.
    + intros [= <-]. cbn. auto.
  - unfold identify_en_passant.
    destruct (Chess.is_en_passant prev_board (Chess.mkMove d0 a0 None)).
    + destruct (negb _); try discriminate. intros [= <-]. cbn. auto.
    + destruct (Chess.is_en_passant prev_board (Chess.mkMove d1 a0 None));
        try discriminate.
      destruct (negb _); try discriminate. intros [= <-]. cbn. auto.
  - unfold identify_castling.
    destruct (attr (Chess.piece_at prev_board d0)) as [p0|]; cbn [rbind]; try discriminate.
    destruct (attr (Chess.piece_at current_board a0)) as [q0|]; cbn [rbind]; try discriminate.
    destruct (negb (Chess.is_castling _ _)); try discriminate.
    destruct (attr _) as [k|]; cbn [rbind]; try discriminate.
    destruct (_ || _); try discriminate.
    destruct (castle_rook_move _ _) as [[rm|]|]; cbn [rbind]; try discriminate.
    destruct (Chess.Move_eqb _ rm); try discriminate.
    intros [= <-]. cbn [Chess.from_square Chess.to_square].
    destruct (negb (PieceType_eqb (piece_type p0) KING)),
             (negb (PieceType_eqb (piece_type q0) KING)); cbn; auto.
Qed.

(** X19: identical snapshots give no move. *)
Theorem identify_move_no_change (b : Chess.Board) :
  identify_move b b = Ok None.
Proof.
  assert (Hd : dissapeared b b = []).
  { unfold dissapeared.
    induction Chess.SQUARES as [|s l IH]; [reflexivity|].
    cbn [List.filter]. rewrite opiece_eqb_refl. cbn [negb andb]. exact IH. }
  unfold identify_move. rewrite Hd. reflexivity.
Qed.

(** X20: a move identified from two vacated squares and one occupied
    square is an en passant capture on the previous snapshot (for
    python-chess) whose captured pawn stood on the other vacated square. *)
Theorem identify_move_en_passant_sound (prev_board current_board : Chess.Board)
    (d0 d1 a : Z) (m : Chess.Move) :
  dissapeared prev_board current_board = [d0; d1] ->
  appeared prev_board current_board = [a] ->
  identify_move prev_board current_board = Ok (Some m) ->
  Chess.is_en_passant prev_board m = true
  /\ Chess.to_square m = a
  /\ Chess.promotion m = None
  /\ ((Chess.from_square m = d0 /\ en_passant_captured m = d1)
      \/ (Chess.from_square m = d1 /\ en_passant_captured m = d0)).
Proof.
  intros Hd Ha. unfold identify_move. rewrite Hd, Ha. unfold identify_en_passant.
  destruct (Chess.is_en_passant prev_board (Chess.mkMove d0 a None)) eqn:E0.
  - destruct (Z.eqb_spec (en_passant_captured (Chess.mkMove d0 a None)) d1);
      cbn [negb]; [|discriminate].
    intros [= <-]. cbn [Chess.from_square Chess.to_square Chess.promotion]. auto 6.
  - destruct (Chess.is_en_passant prev_board (Chess.mkMove d1 a None)) eqn:E1;
      [|discriminate].
    destruct (Z.eqb_spec (en_passant_captured (Chess.mkMove d1 a None)) d0);
      cbn [negb]; [|discriminate].
    intros [= <-]. cbn [Chess.from_square Chess.to_square Chess.promotion]. auto 6.
Qed.

Lemma PieceType_eqb_eq (a b : PieceType) : PieceType_eqb a b = true -> a = b.
Proof. destruct a, b; (reflexivity || discriminate). Qed.

Lemma Color_eqb_eq (a b : Color) : Color_eqb a b = true -> a = b.
Proof. destruct a, b; (reflexivity || discriminate). Qed.

Lemma opiece_eqb_eq (a b : option Piece) : Chess.opiece_eqb a b = true -> a = b.
Proof.
  destruct a as [[ta ca]|], b as [[tb cb]|]; cbn; try discriminate; [|reflexivity].
  unfold Piece_eqb. cbn. rewrite andb_true_iff. intros [Ht Hc].
  apply PieceType_eqb_eq in Ht. apply Color_eqb_eq in Hc. congruence.
Qed.

Lemma Move_eqb_eq (m n : Chess.Move) : Chess.Move_eqb m n = true -> m = n.
Proof.
  destruct m as [f t p], n as [f' t' p']. unfold Chess.Move_eqb. cbn.
  rewrite !andb_true_iff. intros [[Hf Ht] Hp].
  apply Z.eqb_eq in Hf, Ht. subst.
  destruct p as [p|], p' as [p'|]; cbn in Hp; try discriminate; [|reflexivity].
  apply PieceType_eqb_eq in Hp. congruence.
Qed.

(** X21: a move identified from two vacated and two occupied squares is a
    castling king move on the previous snapshot: the king leaves one vacated
    square for one occupied square, and the other two squares are the ones
    of the rook move [castle_rook_move] gives, with a rook of the king's
    colour on its origin before and on its destination after. *)
Theorem identify_move_castling_sound (prev_board current_board : Chess.Board)
    (d0 d1 a0 a1 : Z) (m : Chess.Move) :
  dissapeared prev_board current_board = [d0; d1] ->
  appeared prev_board current_board = [a0; a1] ->
  identify_move prev_board current_board = Ok (Some m) ->
  Chess.is_castling prev_board m = true
  /\ Chess.promotion m = None
  /\ exists king rook_move,
       Chess.piece_at prev_board (Chess.from_square m) = Some king
       /\ piece_type king = KING
       /\ castle_rook_move prev_board m = Ok (Some rook_move)
       /\ ((Chess.from_square m = d0 /\ Chess.from_square rook_move = d1)
           \/ (Chess.from_square m = d1 /\ Chess.from_square rook_move = d0))
       /\ ((Chess.to_square m = a0 /\ Chess.to_square rook_move = a1)
           \/ (Chess.to_square m = a1 /\ Chess.to_square rook_move = a0))
       /\ Chess.piece_at prev_board (Chess.from_square rook_move)
          = Some (mkPiece ROOK (color king))
       /\ Chess.piece_at current_board (Chess.to_square rook_move)
          = Some (mkPiece ROOK (color king)).
Proof.
  intros Hd Ha. unfold identify_move. rewrite Hd, Ha. unfold identify_castling.
  destruct (attr (Chess.piece_at prev_board d0)) as [p0|]; cbn [rbind]; try discriminate.
  destruct (attr (Chess.piece_at current_board a0)) as [q0|]; cbn [rbind]; try discriminate.
  set (dis := if negb (PieceType_eqb (piece_type p0) KING) then (d1, d0) else (d0, d1)).
  set (app := if negb (PieceType_eqb (piece_type q0) KING) then (a1, a0) else (a0, a1)).
  cbn [Chess.from_square Chess.to_square].
  destruct (Chess.is_castling prev_board (Chess.mkMove dis.1 app.1 None)) eqn:Hc;
    cbn [negb]; try discriminate.
  destruct (Chess.piece_at prev_board dis.1) as [k|] eqn:Hk; cbn [attr rbind];
    try discriminate.
  destruct (Chess.opiece_eqb (Chess.piece_at prev_board dis.2) _) eqn:Hr1;
    cbn [negb orb]; try discriminate.
  destruct (Chess.opiece_eqb (Chess.piece_at current_board app.2) _) eqn:Hr2;
    cbn [negb orb]; try discriminate.
  destruct (castle_rook_move prev_board _) as [[rm|]|] eqn:Erm; cbn [rbind];
    try discriminate.
  destruct (Chess.Move_eqb _ rm) eqn:Em; try discriminate.
  intros [= <-]. apply Move_eqb_eq in Em. subst rm.
  apply opiece_eqb_eq in Hr1, Hr2.
  split; [exact Hc|]. split; [reflexivity|].
  exists k, (Chess.mkMove dis.2 app.2 None).
  cbn [Chess.from_square Chess.to_square].
  split; [exact Hk|]. split.
  { destruct (castle_rook_move_table _ _ _ Erm) as (Hking & _).
    unfold Chess.type_on in Hking. cbn [Chess.from_square] in Hking.
    rewrite Hk in Hking. now apply PieceType_eqb_eq. }
  split; [exact Erm|].
  split; [unfold dis; destruct (negb (PieceType_eqb (piece_type p0) KING)); cbn; auto|].
  split; [unfold app; destruct (negb (PieceType_eqb (piece_type q0) KING)); cbn; auto|].
  split; assumption.
Qed.

(** X22: a promotion is only reported for a pawn that reached rank 1 or
    rank 8, and it is the type of the piece of the pawn's colour that stands
    on the destination square in the current snapshot. *)
Theorem identify_move_promotion_sound (prev_board current_board : Chess.Board)
    (m : Chess.Move) (t : PieceType) :
  identify_move prev_board current_board = Ok (Some m) ->
  Chess.promotion m = Some t ->
  exists pawn promoted,
    Chess.piece_at prev_board (Chess.from_square m) = Some pawn
    /\ piece_type pawn = PAWN
    /\ on_edge_rank (Chess.to_square m) = true
    /\ Chess.piece_at current_board (Chess.to_square m) = Some promoted
    /\ piece_type promoted = t
    /\ color promoted = color pawn.
Proof.
  unfold identify_move.
  destruct (dissapeared prev_board current_board) as [|d0 [|d1 [|d2 dis]]];
  destruct (appeared prev_board current_board) as [|a0 [|a1 [|a2 app]]];
    try discriminate.
  - unfold identify_simple. cbn [Chess.from_square Chess.to_square].
    destruct (is_en_passant _ _) as [[|]|]; cbn [rbind]; try discriminate.
    destruct (Chess.is_castling _ _); try discriminate.
    destruct (Chess.piece_at prev_board d0) as [moved|] eqn:Hm; cbn [attr rbind];
      try discriminate.
    destruct (PieceType_eqb (piece_type moved) PAWN) eqn:Hp; cbn [andb].
    + destruct (on_edge_rank a0) eqn:He.
      * destruct (Chess.piece_at current_board a0) as [q|] eqn:Hq; try discriminate.
        destruct (Color_eqb (color moved) (color q)) eqn:Hc; cbn [negb];
          try discriminate.
        intros [= <-]. cbn [Chess.promotion Chess.from_square Chess.to_square].
        intros [= <-]. exists moved, q.
        apply PieceType_eqb_eq in Hp. apply Color_eqb_eq in Hc.
        repeat split; auto.
      * intros [= <-]. discriminate.
    + intros [= <-]. discriminate.
  - intros H Hp.
    assert (Chess.promotion m = None); [|congruence].
    revert H. unfold identify_en_passant.
    repeat match goal with
    | |- context [if ?c then _ else _] => destruct c
    end; try discriminate; intros [= <-]; reflexivity.
  - intros H Hp.
    assert (Chess.promotion m = None); [|congruence].
    revert H. unfold identify_castling.
    destruct (attr (Chess.piece_at prev_board d0)) as [p0|]; cbn [rbind]; try discriminate.
    destruct (attr (Chess.piece_at current_board a0)) as [q0|]; cbn [rbind]; try discriminate.
    destruct (negb (Chess.is_castling _ _)); try discriminate.
    destruct (attr _) as [k|]; cbn [rbind]; try discriminate.
    destruct (_ || _); try discriminate.
    destruct (castle_rook_move _ _) as [[rm|]|]; cbn [rbind]; try discriminate.
    destruct (Chess.Move_eqb _ rm); try discriminate.
    intros [= <-]. reflexivity.
Qed.

(** *** More on board reconciliation *)

Lemma option_eq_dec_piece (a b : option Piece) : {a = b} + {a <> b}.
Proof. repeat decide equality. Qed.

(** *** Dictionaries *)

Lemma SQUARES_range (k : Z) : In k Chess.SQUARES <-> 0 <= k <= 63.
Proof.
  unfold Chess.SQUARES. rewrite in_map_iff. split.
  - intros (n & <- & Hn). apply in_seq in Hn. lia.
  - intros Hk. exists (Z.to_nat k). split; [lia|]. apply in_seq. lia.
Qed.

Lemma dict_mem_In (d : PieceDict) (k : Z) :
  dict_mem d k = true <-> exists v, In (k, v) d.
Proof.
  unfold dict_mem. rewrite existsb_exists. split.
  - intros ([k' v] & Hin & Hk). cbn in Hk. apply Z.eqb_eq in Hk. subst. eauto.
  - intros (v & Hin). exists (k, v). split; [exact Hin|]. cbn. apply Z.eqb_refl.
Qed.

Lemma fold_pop_spec (ks : list Z) (d : PieceDict) :
  fold_left dict_pop_default ks d
  = List.filter (fun e => negb (existsb (fun k => fst e =? k) ks)) d.
Proof.
  revert d. induction ks as [|k ks IH]; intros d; cbn [fold_left existsb].
  - induction d as [|e d IHd]; [reflexivity|].
    cbn [List.filter existsb negb]. f_equal. exact IHd.
  - rewrite IH. unfold dict_pop_default.
    induction d as [|e d IHd]; [reflexivity|]. cbn [List.filter].
    destruct (fst e =? k) eqn:Ek; cbn [negb orb].
    + exact IHd.
    + cbn [List.filter]. destruct (negb _); [now rewrite IHd|exact IHd].
Qed.

Section Positions.

Context {Offset : Type}.
Implicit Types b expected_board : RealBoard (Offset := Offset).

Lemma positions_In b (k : Z) (v : option Piece) :
  In (k, v) (positions b)
  <-> 0 <= k <= 63 /\ v = rb_piece_at b k /\ v <> None.
Proof.
  unfold positions. rewrite in_flat_map. split.
  - intros (s & Hs & Hin). apply SQUARES_range in Hs.
    destruct (rb_piece_at b s) as [p|] eqn:Hp; [|destruct Hin].
    destruct Hin as [[= <- <-]|[]]. rewrite Hp. repeat split; try lia; discriminate.
  - intros (Hk & -> & Hv). exists k. split; [now apply SQUARES_range|].
    destruct (rb_piece_at b k); [now left|congruence].
Qed.

Lemma dict_get_squares b (l : list Z) (k : Z) :
  dict_get
    (flat_map (fun square => match rb_piece_at b square with
                             | Some p => [(square, Some p)]
                             | None => []
                             end) l) k
  = if existsb (fun s => s =? k) l then rb_piece_at b k else None.
Proof.
  unfold dict_get. induction l as [|s l IH]; [reflexivity|].
  cbn [flat_map existsb].
  destruct (rb_piece_at b s) as [p|] eqn:Hp; cbn [app find fst].
  - destruct (Z.eqb_spec s k) as [->|]; cbn [orb snd]; [now rewrite Hp|exact IH].
  - destruct (Z.eqb_spec s k) as [->|]; cbn [orb]; [|exact IH].
    rewrite IH, Hp. now destruct (existsb _ l).
Qed.

Lemma dict_get_positions b (k : Z) :
  0 <= k <= 63 -> dict_get (positions b) k = rb_piece_at b k.
Proof.
  intros Hk. unfold positions. rewrite dict_get_squares.
  replace (existsb (fun s => s =? k) Chess.SQUARES) with true; [reflexivity|].
  symmetry. apply existsb_exists. exists k.
  split; [now apply SQUARES_range|apply Z.eqb_refl].
Qed.

(** What is left of the two dictionaries in the plan. *)
Lemma plan_current_In b expected_board (e : Z * option Piece) :
  In e (current_positions (make_plan b expected_board)) -> In e (positions b).
Proof.
  unfold make_plan. cbn [current_positions]. rewrite fold_pop_spec.
  rewrite filter_In. tauto.
Qed.

Lemma plan_expected_In b expected_board (e : Z * option Piece) :
  In e (expected_positions (make_plan b expected_board)) ->
  In e (positions expected_board)
  /\ rb_piece_at b (fst e) <> snd e.
Proof.
  unfold make_plan. cbn [expected_positions]. rewrite fold_pop_spec.
  rewrite filter_In. intros [Hin Hk]. split; [exact Hin|].
  intros Heq. apply negb_true_iff in Hk.
  assert (existsb (fun k => fst e =? k)
            (map fst
               (List.filter
                  (fun e0 => Chess.opiece_eqb
                                (dict_get (positions b) (fst e0)) (snd e0))
                  (positions expected_board))) = true); [|congruence].
  apply existsb_exists. exists (fst e). split; [|apply Z.eqb_refl].
  apply in_map. apply filter_In. split; [exact Hin|].
  destruct e as [k v]. cbn [fst snd] in *.
  apply positions_In in Hin. destruct Hin as (Hr & _).
  rewrite dict_get_positions by exact Hr. rewrite Heq. apply opiece_eqb_refl.
Qed.

Lemma plan_expected_nil b expected_board :
  expected_positions (make_plan b expected_board) = [] ->
  forall k p, 0 <= k <= 63 ->
    rb_piece_at expected_board k = Some p -> rb_piece_at b k = Some p.
Proof.
  unfold make_plan. cbn [expected_positions]. rewrite fold_pop_spec.
  intros Hnil k p Hk Hp.
  assert (Hin : In (k, Some p) (positions expected_board)).
  { apply positions_In. repeat split; [lia|lia|now rewrite Hp|discriminate]. }
  destruct (existsb (fun k0 => k =? k0)
              (map fst
                 (List.filter
                    (fun e0 => Chess.opiece_eqb
                                  (dict_get (positions b) (fst e0)) (snd e0))
                    (positions expected_board)))) eqn:Hex.
  - apply existsb_exists in Hex. destruct Hex as (k' & Hk' & Hkk).
    apply Z.eqb_eq in Hkk. subst k'.
    apply in_map_iff in Hk'. destruct Hk' as ([k' v] & Hfst & Hf).
    cbn [fst] in Hfst. subst k'. apply filter_In in Hf. destruct Hf as [Hv Hgood].
    cbn [fst snd] in Hgood. apply positions_In in Hv.
    destruct Hv as (_ & -> & _). rewrite dict_get_positions in Hgood by exact Hk.
    apply opiece_eqb_eq in Hgood. congruence.
  - exfalso.
    assert (Hf : In (k, Some p)
              (List.filter
                 (fun e => negb (existsb (fun k0 => fst e =? k0)
                    (map fst
                       (List.filter
                          (fun e0 => Chess.opiece_eqb
                                        (dict_get (positions b) (fst e0)) (snd e0))
                          (positions expected_board)))))
                 (positions expected_board))).
    { apply filter_In. split; [exact Hin|]. cbn [fst]. now rewrite Hex. }
    rewrite Hnil in Hf. destruct Hf.
Qed.

Lemma empty_squares_In b expected_board (t : Z) :
  In t (empty_squares (make_plan b expected_board)) ->
  0 <= t <= 63
  /\ dict_mem (current_positions (make_plan b expected_board)) t = false
  /\ dict_mem (expected_positions (make_plan b expected_board)) t = false.
Proof.
  unfold make_plan. cbn [empty_squares current_positions expected_positions].
  rewrite filter_In, andb_true_iff, !negb_true_iff, SQUARES_range. tauto.
Qed.

(** A square of the board stays in the plan's dictionaries when the board
    and the target differ on it. *)
Lemma plan_keeps_mismatch b expected_board (k : Z) :
  0 <= k <= 63 ->
  rb_piece_at b k <> rb_piece_at expected_board k ->
  (rb_piece_at b k <> None ->
   dict_mem (current_positions (make_plan b expected_board)) k = true)
  /\ (rb_piece_at expected_board k <> None ->
      dict_mem (expected_positions (make_plan b expected_board)) k = true).
Proof.
  intros Hk Hdiff.
  assert (Hkeep : negb (existsb (fun k0 => k =? k0)
            (map fst
               (List.filter
                  (fun e0 => Chess.opiece_eqb
                               (dict_get (positions b) (fst e0)) (snd e0))
                  (positions expected_board)))) = true).
  { apply negb_true_iff. destruct (existsb _ _) eqn:Hex; [exfalso|reflexivity].
    apply existsb_exists in Hex. destruct Hex as (k' & Hk' & Hkk).
    apply Z.eqb_eq in Hkk. subst k'.
    apply in_map_iff in Hk'. destruct Hk' as ([k' v] & Hfst & Hf).
    cbn [fst] in Hfst. subst k'. apply filter_In in Hf. destruct Hf as [Hv Hgood].
    cbn [fst snd] in Hgood. apply positions_In in Hv. destruct Hv as (_ & -> & _).
    rewrite dict_get_positions in Hgood by exact Hk.
    apply opiece_eqb_eq in Hgood. congruence. }
  unfold make_plan. cbn [current_positions expected_positions].
  rewrite !fold_pop_spec. split; intros Hne; apply dict_mem_In; eexists;
    apply filter_In;
    (split; [apply positions_In; split; [exact Hk|split; [reflexivity|exact Hne]]
            |exact Hkeep]).
Qed.

End Positions.

Section ResetFacts.

Context {Offset : Type}.
Variable SQUARE_CENTER : Offset.
Variable form : Z -> Z -> Offset -> Color -> Z.
Variable link : nat -> Z -> Response.
Variable expected_board : RealBoard (Offset := Offset).

Local Abbreviation move_piece_and_update :=
  (Movement.move_piece_and_update SQUARE_CENTER form link).
Local Abbreviation iter_reset_board :=
  (Movement.iter_reset_board SQUARE_CENTER form link expected_board).

(** One call of [move_piece_and_update]: one command; on a failure the
    status is returned and the board is untouched; on a success the
    dictionaries are updated, or [KeyError] is raised when the start square
    is not a key of the current dictionary. *)
Lemma move_piece_and_update_shape (pl : Plan) (s e : Z) (w : World) :
  let r := link (length (sent w))
             (form s e (offsets (board w) s) (perspective (board w))) in
  exists res w',
    move_piece_and_update pl s e w = (res, w')
    /\ sent w' = sent w ++ [mkRelocation s e
                              (form s e (offsets (board w) s) (perspective (board w)))
                              r]
    /\ chess_board (board w') = chess_board (board w)
    /\ perspective (board w') = perspective (board w)
    /\ (r = COMMAND_FAILURE -> res = Ok (COMMAND_FAILURE, pl) /\ board w' = board w)
    /\ (r = COMMAND_SUCCESS ->
        (dict_mem (current_positions pl) s = true ->
         exists pl', res = Ok (COMMAND_SUCCESS, pl'))
        /\ (dict_mem (current_positions pl) s = false -> res = Raise KeyError)).
Proof.
  intros r. unfold Movement.move_piece_and_update. rewrite bind_get.
  destruct (move_piece_issues SQUARE_CENTER form link s e w)
    as (b' & E & Hcb & Hp & Hko & _).
  cbv zeta in E. fold r in E, Hko. rewrite (bind_step _ _ _ _ _ E).
  destruct r eqn:Er.
  - unfold dict_pop. rewrite bind_lift.
    destruct (dict_mem (current_positions pl) s) eqn:Hm;
      eexists _, _; (split; [reflexivity|]); cbn [sent board];
      (split; [reflexivity|]); (split; [exact Hcb|]); (split; [exact Hp|]);
      (split; [discriminate|]); intros _; split; intros H; try discriminate;
      eauto.
  - eexists _, _. split; [reflexivity|]. cbn [sent board].
    split; [reflexivity|]. split; [exact Hcb|]. split; [exact Hp|].
    split; [|discriminate]. intros _. split; [reflexivity|]. now apply Hko.
Qed.

(** An expected piece that no current square holds is fetched from its
    slot, which is no key of the current dictionary. *)
Lemma third_pass_origin_slot (w : World) (square : Z) (piece : option Piece)
    (rest : PieceDict) :
  let pl := make_plan (board w) expected_board in
  expected_positions pl = (square, piece) :: rest ->
  exists p, piece = Some p
    /\ 0 <= square <= 63
    /\ (in_values piece (current_positions pl) = false ->
        third_pass_origin (current_positions pl) piece = Ok (off_board_place p)
        /\ dict_mem (current_positions pl) (off_board_place p) = false)
    /\ (in_values piece (current_positions pl) = true ->
        exists o, third_pass_origin (current_positions pl) piece = Ok o
                  /\ dict_mem (current_positions pl) o = true).
Proof.
  intros pl Hexp.
  assert (Hin : In (square, piece) (expected_positions pl)) by (rewrite Hexp; now left).
  apply plan_expected_In in Hin. destruct Hin as [Hin _].
  apply positions_In in Hin. destruct Hin as (Hr & Hv & Hne).
  destruct piece as [p|]; [|congruence]. exists p.
  split; [reflexivity|]. split; [exact Hr|]. unfold third_pass_origin. split.
  - intros Hnot.
    destruct (find _ (current_positions pl)) as [[o v]|] eqn:Hf.
    + apply find_some in Hf. destruct Hf as [Hino Heq]. exfalso.
      unfold in_values in Hnot.
      assert (existsb (fun e => Chess.opiece_eqb (snd e) (Some p))
                (current_positions pl) = true); [|congruence].
      apply existsb_exists. eauto.
    + cbn [attr rbind]. split; [reflexivity|].
      destruct (dict_mem (current_positions pl) (off_board_place p)) eqn:Hm;
        [|reflexivity].
      apply dict_mem_In in Hm. destruct Hm as (v & Hv').
      apply plan_current_In, positions_In in Hv'.
      pose proof (off_board_square_negative (piece_type p) (color p) WHITE).
      unfold off_board_place in Hv'. lia.
  - intros Hyes. unfold in_values in Hyes. apply existsb_exists in Hyes.
    destruct Hyes as (x & Hx & Hxe).
    destruct (find _ (current_positions pl)) as [[o v]|] eqn:Hf.
    + exists o. split; [reflexivity|]. apply find_some in Hf.
      apply dict_mem_In. exists v. apply Hf.
    + exfalso. apply (find_none _ _ Hf) in Hx. congruence.
Qed.

Lemma first_pass_In (current expected_items : PieceDict) (s t : Z) :
  first_pass current expected_items = Some (s, t) ->
  exists piece v,
    In (t, piece) expected_items /\ In (s, v) current
    /\ Chess.opiece_eqb v piece = true.
Proof.
  induction expected_items as [|[square piece] rest IH]; [discriminate|].
  cbn [first_pass].
  destruct (in_values piece current).
  - destruct (find _ current) as [[start v]|] eqn:Hf.
    + intros [= <- <-]. apply find_some in Hf. destruct Hf as [Hin Heq].
      exists piece, v. split; [now left|]. split; assumption.
    + intros H. destruct (IH H) as (pc & v & H1 & H2). exists pc, v.
      split; [now right|exact H2].
  - intros H. destruct (IH H) as (pc & v & H1 & H2). exists pc, v.
    split; [now right|exact H2].
Qed.

Lemma first_pass_none_head (current rest : PieceDict) (square : Z)
    (piece : option Piece) :
  first_pass current ((square, piece) :: rest) = None ->
  in_values piece current = false.
Proof.
  cbn [first_pass]. destruct (in_values piece current) eqn:Hv; [|reflexivity].
  destruct (find _ current) as [[start v]|] eqn:Hf; [discriminate|].
  unfold in_values in Hv. apply existsb_exists in Hv. destruct Hv as (x & Hx & Hxe).
  apply (find_none _ _ Hf) in Hx. congruence.
Qed.

Lemma second_pass_In (expected : PieceDict) (empty : list Z)
    (current_items : PieceDict) (s t : Z) :
  second_pass expected empty current_items = Some (s, t) ->
  hd_error empty = Some t
  /\ exists piece, In (s, piece) current_items /\ in_values piece expected = false.
Proof.
  induction current_items as [|[start piece] rest IH]; [discriminate|].
  cbn [second_pass]. destruct (in_values piece expected) eqn:Hv; cbn [negb].
  - intros H. destruct (IH H) as (He & pc & Hin & Hn).
    split; [exact He|]. exists pc. split; [now right|exact Hn].
  - destruct empty as [|temp empty'].
    + intros H. destruct (IH H) as (He & _). discriminate.
    + intros [= <- <-]. split; [reflexivity|]. exists piece.
      split; [now left|exact Hv].
Qed.

(** The four ways a call can go: Done, or one [move_piece_and_update] chosen
    by the first, the second or the third pass. *)
Lemma iter_reset_board_cases (w : World) :
  let pl := make_plan (board w) expected_board in
  (first_pass (current_positions pl) (expected_positions pl) = None
   /\ second_pass (expected_positions pl) (empty_squares pl) (current_positions pl) = None
   /\ expected_positions pl = []
   /\ iter_reset_board w
      = (Ok (COMMAND_SUCCESS, true),
         mkWorld (mkRealBoard (chess_board expected_board) (offsets (board w))
                              (perspective expected_board))
                 (sent w)))
  \/ exists s t pl0,
       iter_reset_board w
       = bind (move_piece_and_update pl0 s t) (fun r => ret (fst r, false)) w
       /\ current_positions pl0 = current_positions pl
       /\ ((first_pass (current_positions pl) (expected_positions pl) = Some (s, t)
            /\ dict_mem (current_positions pl) s = true)
           \/ (first_pass (current_positions pl) (expected_positions pl) = None
               /\ second_pass (expected_positions pl) (empty_squares pl)
                    (current_positions pl) = Some (s, t)
               /\ dict_mem (current_positions pl) s = true)
           \/ (first_pass (current_positions pl) (expected_positions pl) = None
               /\ second_pass (expected_positions pl) (empty_squares pl)
                    (current_positions pl) = None
               /\ exists p rest,
                    expected_positions pl = (t, Some p) :: rest
                    /\ s = off_board_place p
                    /\ dict_mem (current_positions pl) s = false)).
Proof.
  intros pl. unfold Movement.iter_reset_board. rewrite bind_get. fold pl.
  destruct (first_pass (current_positions pl) (expected_positions pl))
    as [[s t]|] eqn:H1.
  { right. exists s, t, pl. split; [reflexivity|]. split; [reflexivity|].
    left. split; [reflexivity|].
    destruct (first_pass_In _ _ _ _ H1) as (pc & v & _ & Hin & _).
    apply dict_mem_In. eauto. }
  destruct (second_pass (expected_positions pl) (empty_squares pl)
              (current_positions pl)) as [[s t]|] eqn:H2.
  { right. eexists s, t, _. split; [reflexivity|]. split; [reflexivity|].
    right; left. split; [reflexivity|]. split; [reflexivity|].
    destruct (second_pass_In _ _ _ _ _ H2) as (_ & pc & Hin & _).
    apply dict_mem_In. eauto. }
  destruct (expected_positions pl) as [|[square piece] rest] eqn:H3.
  { left. repeat split; reflexivity. }
  right.
  destruct (third_pass_origin_slot w square piece rest H3)
    as (p & -> & Hr & Hslot & _).
  assert (Hnot : in_values (Some p) (current_positions pl) = false).
  { now apply first_pass_none_head in H1. }
  destruct (Hslot Hnot) as [Ho Hm]. fold pl in Ho, Hm. rewrite bind_lift, Ho.
  exists (off_board_place p), square, pl.
  split; [reflexivity|]. split; [reflexivity|].
  right; right. split; [reflexivity|]. split; [reflexivity|].
  exists p, rest. repeat split; [exact Hm].
Qed.

(** X23: one call of [iter_reset_board] either reports Done with a
    success, no command, and the target's occupancy and perspective adopted
    (offsets kept); or issues exactly one command, keeps occupancy and
    perspective, and returns the status of that command with Done false,
    unless it raises [KeyError]. *)
Theorem iter_reset_board_one_relocation (w : World) :
  exists issued,
    sent (snd (iter_reset_board w)) = sent w ++ issued
    /\ ((fst (iter_reset_board w) = Ok (COMMAND_SUCCESS, true)
         /\ issued = []
         /\ board (snd (iter_reset_board w))
            = mkRealBoard (chess_board expected_board) (offsets (board w))
                          (perspective expected_board))
        \/ (length issued = 1%nat
            /\ chess_board (board (snd (iter_reset_board w)))
               = chess_board (board w)
            /\ perspective (board (snd (iter_reset_board w)))
               = perspective (board w)
            /\ (fst (iter_reset_board w) = Raise KeyError
                \/ exists r, fst (iter_reset_board w) = Ok (r, false)
                             /\ Forall (fun e => rel_response e = r) issued))).
Proof.
  destruct (iter_reset_board_cases w) as [(_ & _ & _ & E) | (s & t & pl0 & E & _ & _)];
    rewrite E.
  - exists []. split; [cbn; now rewrite app_nil_r|]. left. repeat split.
  - destruct (move_piece_and_update_shape pl0 s t w)
      as (res & w' & Em & Hs & Hcb & Hp & Hko & Hok).
    cbv zeta in *. unfold bind. rewrite Em.
    eexists. split; [destruct res; cbn [snd ret]; exact Hs|].
    right. split; [reflexivity|].
    destruct (link _ _) eqn:El.
    + destruct (Hok eq_refl) as [Hyes Hno].
      destruct (dict_mem (current_positions pl0) s).
      * destruct (Hyes eq_refl) as [pl' ->]. cbn [fst snd ret].
        split; [exact Hcb|]. split; [exact Hp|]. right. exists COMMAND_SUCCESS.
        split; [reflexivity|].
        apply List.Forall_cons; [reflexivity|apply List.Forall_nil].
      * rewrite (Hno eq_refl). cbn [fst snd].
        split; [exact Hcb|]. split; [exact Hp|]. now left.
    + destruct (Hko eq_refl) as [-> Hb]. cbn [fst snd ret].
      split; [exact Hcb|]. split; [exact Hp|]. right. exists COMMAND_FAILURE.
      split; [reflexivity|].
      apply List.Forall_cons; [reflexivity|apply List.Forall_nil].
Qed.

(** X24: Done is only reported when every piece of the target stands on
    its square of the board. *)
Theorem iter_reset_board_done_sound (w : World) (r : Response) :
  fst (iter_reset_board w) = Ok (r, true) ->
  forall k p, 0 <= k <= 63 ->
    rb_piece_at expected_board k = Some p ->
    rb_piece_at (board w) k = Some p.
Proof.
  intros Hdone.
  destruct (iter_reset_board_cases w) as [(_ & _ & Hnil & _) | (s & t & pl0 & E & _ & _)].
  - apply plan_expected_nil. exact Hnil.
  - exfalso. rewrite E in Hdone. unfold bind in Hdone.
    destruct (move_piece_and_update pl0 s t w) as [[[r' pl']|e] w']; discriminate.
Qed.

(** X25: when the board already shows the target on all 64 squares the
    call reports Done at once: no command, the target's occupancy and
    perspective adopted, the offsets kept. *)
Theorem iter_reset_board_matched (w : World) :
  (forall k, 0 <= k <= 63 ->
     rb_piece_at (board w) k = rb_piece_at expected_board k) ->
  iter_reset_board w
  = (Ok (COMMAND_SUCCESS, true),
     mkWorld (mkRealBoard (chess_board expected_board) (offsets (board w))
                          (perspective expected_board))
             (sent w)).
Proof.
  intros Hsame.
  assert (Hcur : forall e,
            In e (current_positions (make_plan (board w) expected_board)) -> False).
  { intros [k v]. unfold make_plan. cbn [current_positions].
    rewrite fold_pop_spec, filter_In. intros [Hin Hk]. cbn [fst] in Hk.
    apply negb_true_iff in Hk.
    assert (existsb (fun k0 => k =? k0)
              (map fst
                 (List.filter
                    (fun e0 => Chess.opiece_eqb
                                 (dict_get (positions (board w)) (fst e0)) (snd e0))
                    (positions expected_board))) = true); [|congruence].
    apply existsb_exists. exists k. split; [|apply Z.eqb_refl].
    apply positions_In in Hin. destruct Hin as (Hr & Hv & Hne).
    change k with (fst (k, v)). apply in_map. apply filter_In. cbn [fst snd]. split.
    - apply positions_In. rewrite <- Hsame by exact Hr. auto.
    - rewrite dict_get_positions by exact Hr. rewrite Hv. apply opiece_eqb_refl. }
  destruct (iter_reset_board_cases w)
    as [(_ & _ & _ & E) | (s & t & pl0 & _ & _ & Hpass)]; [exact E|exfalso].
  destruct Hpass as [[_ Hm] | [(_ & _ & Hm) | (_ & _ & p & rest & Hexp & _)]].
  - apply dict_mem_In in Hm. destruct Hm as [v Hv]. exact (Hcur _ Hv).
  - apply dict_mem_In in Hm. destruct Hm as [v Hv]. exact (Hcur _ Hv).
  - assert (Hin : In (t, Some p)
              (expected_positions (make_plan (board w) expected_board)))
      by (rewrite Hexp; now left).
    apply plan_expected_In in Hin. destruct Hin as [Hin Hne]. cbn [fst snd] in Hne.
    apply positions_In in Hin. destruct Hin as (Hr & Hv & _).
    rewrite Hsame in Hne by exact Hr. congruence.
Qed.

(** X26: the first pass only ever chooses a relocation between real
    squares that takes a piece from a square to a square where the target
    wants that very piece and the board does not have it. *)
Theorem first_pass_places_wanted_piece (w : World) (s t : Z) :
  let pl := make_plan (board w) expected_board in
  first_pass (current_positions pl) (expected_positions pl) = Some (s, t) ->
  0 <= s <= 63 /\ 0 <= t <= 63
  /\ (exists p, rb_piece_at (board w) s = Some p
                /\ rb_piece_at expected_board t = Some p)
  /\ rb_piece_at (board w) t <> rb_piece_at expected_board t.
Proof.
  intros pl H. destruct (first_pass_In _ _ _ _ H) as (pc & v & Ht & Hs & Heq).
  apply opiece_eqb_eq in Heq. subst v.
  apply plan_current_In, positions_In in Hs. destruct Hs as (Hsr & Hsv & Hsn).
  apply plan_expected_In in Ht. destruct Ht as [Ht Hdiff]. cbn [fst snd] in Hdiff.
  apply positions_In in Ht. destruct Ht as (Htr & Htv & Htn).
  split; [exact Hsr|]. split; [exact Htr|]. split.
  - destruct pc as [p|]; [|congruence]. exists p. split; congruence.
  - congruence.
Qed.

(** X27: when a call reaches the third pass and its command is
    acknowledged, the call raises [KeyError]: the piece is fetched from its
    off-board slot, which is no key of the dictionary the start square is
    then popped from. *)
Theorem iter_reset_board_third_pass_raises (w : World) :
  let pl := make_plan (board w) expected_board in
  first_pass (current_positions pl) (expected_positions pl) = None ->
  second_pass (expected_positions pl) (empty_squares pl) (current_positions pl) = None ->
  expected_positions pl <> [] ->
  (forall c, link (length (sent w)) c = COMMAND_SUCCESS) ->
  fst (iter_reset_board w) = Raise KeyError
  /\ exists t p e,
       hd_error (expected_positions pl) = Some (t, Some p)
       /\ sent (snd (iter_reset_board w)) = sent w ++ [e]
       /\ rel_from e = off_board_place p /\ rel_to e = t
       /\ rel_response e = COMMAND_SUCCESS.
Proof.
  intros pl H1 H2 H3 Hack.
  destruct (iter_reset_board_cases w)
    as [(_ & _ & Hnil & _) | (s & t & pl0 & E & Hcur & Hpass)]; [fold pl in Hnil; congruence|].
  fold pl in Hpass.
  destruct Hpass as [[Hp _] | [(_ & Hp & _) | (_ & _ & p & rest & Hexp & -> & Hm)]];
    [congruence|congruence|].
  destruct (move_piece_and_update_shape pl0 (off_board_place p) t w)
    as (res & w' & Em & Hs & _ & _ & _ & Hok).
  cbv zeta in *. rewrite Hack in Hs, Hok.
  destruct (Hok eq_refl) as [_ Hno]. rewrite Hcur in Hno. rewrite (Hno Hm) in Em.
  rewrite E. unfold bind. rewrite Em. cbn [fst snd]. split; [reflexivity|].
  eexists t, p, _. rewrite Hexp. split; [reflexivity|]. split; [exact Hs|].
  repeat split.
Qed.

(** X28: on a link that fails the command, a call either reports Done
    without a command or returns [COMMAND_FAILURE] with Done false after one
    command, the board object untouched. *)
Theorem iter_reset_board_on_failure (w : World) :
  (forall c, link (length (sent w)) c = COMMAND_FAILURE) ->
  (fst (iter_reset_board w) = Ok (COMMAND_SUCCESS, true)
   /\ sent (snd (iter_reset_board w)) = sent w)
  \/ (fst (iter_reset_board w) = Ok (COMMAND_FAILURE, false)
      /\ board (snd (iter_reset_board w)) = board w
      /\ exists e, sent (snd (iter_reset_board w)) = sent w ++ [e]).
Proof.
  intros Hdead.
  destruct (iter_reset_board_cases w) as [(_ & _ & _ & E) | (s & t & pl0 & E & _ & _)];
    rewrite E.
  - left. split; reflexivity.
  - right.
    destruct (move_piece_and_update_shape pl0 s t w)
      as (res & w' & Em & Hs & _ & _ & Hko & _).
    cbv zeta in *. rewrite Hdead in Hs, Hko.
    destruct (Hko eq_refl) as [-> Hb]. unfold bind. rewrite Em. cbn [fst snd ret].
    split; [reflexivity|]. split; [exact Hb|]. eexists. exact Hs.
Qed.

(** X29: the second pass moves a piece that stands on a square where the
    board differs from the target and that no unmatched target square
    wants, and the holding square it picks is a real square on which the
    board and the target agree (empty on both, or holding a piece that is
    in place). *)
Theorem second_pass_choice (w : World) (s t : Z) :
  let pl := make_plan (board w) expected_board in
  second_pass (expected_positions pl) (empty_squares pl) (current_positions pl)
  = Some (s, t) ->
  0 <= s <= 63 /\ 0 <= t <= 63
  /\ (exists p, rb_piece_at (board w) s = Some p
                /\ in_values (Some p) (expected_positions pl) = false)
  /\ rb_piece_at (board w) s <> rb_piece_at expected_board s
  /\ rb_piece_at (board w) t = rb_piece_at expected_board t.
Proof.
  intros pl H. destruct (second_pass_In _ _ _ _ _ H) as (Hhd & pc & Hin & Hnot).
  pose proof (plan_current_In _ _ _ Hin) as Hs. apply positions_In in Hs.
  destruct Hs as (Hsr & Hsv & Hsn).
  assert (Ht : In t (empty_squares pl)).
  { destruct (empty_squares pl) as [|x l]; [discriminate|].
    injection Hhd as ->. now left. }
  apply empty_squares_In in Ht. destruct Ht as (Htr & Hc & He).
  split; [exact Hsr|]. split; [exact Htr|]. split; [|split].
  - destruct pc as [p|]; [|congruence]. exists p. split; [congruence|exact Hnot].
  - intros Heq.
    assert (Hm : dict_mem (current_positions pl) s = true)
      by (apply dict_mem_In; eauto).
    unfold pl, make_plan in Hin. cbn [current_positions] in Hin.
    rewrite fold_pop_spec in Hin. apply filter_In in Hin. destruct Hin as [Hp Hk].
    cbn [fst] in Hk. apply negb_true_iff in Hk.
    assert (existsb (fun k0 => s =? k0)
              (map fst
                 (List.filter
                    (fun e0 => Chess.opiece_eqb
                                 (dict_get (positions (board w)) (fst e0)) (snd e0))
                    (positions expected_board))) = true); [|congruence].
    apply existsb_exists. exists s. split; [|apply Z.eqb_refl].
    change s with (fst (s, pc)). apply in_map. apply filter_In. cbn [fst snd]. split.
    + apply positions_In. repeat split; [lia|lia|congruence|exact Hsn].
    + rewrite dict_get_positions by exact Hsr. rewrite <- Hsv. apply opiece_eqb_refl.
  - destruct (option_eq_dec_piece (rb_piece_at (board w) t)
                                  (rb_piece_at expected_board t)) as [|Hdiff];
      [assumption|exfalso].
    destruct (plan_keeps_mismatch (board w) expected_board t Htr Hdiff) as [H1 H2].
    destruct (rb_piece_at (board w) t) as [q|] eqn:Hq.
    + rewrite H1 in Hc by discriminate. discriminate.
    + destruct (rb_piece_at expected_board t) as [q|] eqn:Hq'; [|congruence].
      rewrite H2 in He by discriminate. discriminate.
Qed.

End ResetFacts.

(** * The further properties on concrete boards *)

(** X7 on a line that goes low at the fourth sample: the success was read
    off a low sample. *)
Lemma wait_for_signal_sound_witness :
  exists k, (k < 5)%nat /\ Comm.resp (Scenario.tenths 3) k = 0.
Proof.
  destruct (wait_for_signal_sound (Scenario.tenths 3) 5
              (Comm.mkWait Comm.RESPONSE_SUCCESS 4) eq_refl) as [_ H].
  destruct (H eq_refl) as (k & Hk & Hr & _).
  exists k. split; [|exact Hr]. cbn [Comm.samples] in Hk. lia.
Defined.

Lemma tenths_sleeps (k : nat) : Comm.sleeps (Scenario.tenths k).
Proof.
  split.
  - vm_compute. discriminate.
  - intros n _. cbn [Comm.clock Scenario.tenths]. unfold Comm.DELAY_WAIT_S.
    rewrite !Nat2Z.inj_succ. unfold Z.succ. rewrite !inject_Z_plus.
    change (inject_Z 1) with 1%Q. lra.
Qed.

Lemma steady_sleeps : Comm.sleeps Scenario.steady.
Proof.
  split.
  - vm_compute. discriminate.
  - intros n _. cbn [Comm.clock Scenario.steady Nat.pred]. unfold Comm.DELAY_WAIT_S.
    rewrite Nat2Z.inj_succ. unfold Z.succ. rewrite inject_Z_plus.
    change (inject_Z 1) with 1%Q. lra.
Qed.

(** The bounds of X8 are reached: on the steady clock, with a line that
    never reads low, a hundred guards hold and a hundred samples are taken
    before the guard of the hundred and first iteration fails; fuel for a
    hundred iterations is not enough. *)
Lemma wait_for_signal_steady_run :
  Comm.wait_for_signal Scenario.steady 101
  = Some (Comm.mkWait Comm.RESPONSE_TIMEOUT 100)
  /\ Comm.wait_for_signal Scenario.steady 100 = None.
Proof. split; vm_compute; reflexivity. Qed.

(** X8 on the steady clock, and on a clock that advances by tenths of a
    second with a line low from the fourth sample on. *)
Lemma wait_for_signal_bounded_witness :
  (exists r, Comm.wait_for_signal Scenario.steady 1000 = Some r
             /\ (Comm.samples r <= 100)%nat)
  /\ (exists r, Comm.wait_for_signal (Scenario.tenths 3) 1000 = Some r
                /\ (Comm.samples r <= 100)%nat).
Proof.
  split.
  - destruct (wait_for_signal_bounded Scenario.steady 1000 steady_sleeps)
      as (r & H1 & _ & H2); [lia|].
    exists r. split; assumption.
  - destruct (wait_for_signal_bounded (Scenario.tenths 3) 1000 (tenths_sleeps 3))
      as (r & H1 & _ & H2); [lia|].
    exists r. split; assumption.
Defined.

(** X9 on e2-e4. *)
Lemma reflect_move_plain_witness :
  fst (reflect_move Scenario.center Scenario.codec Scenario.link_ok
         (Chess.mkMove 12 28 None) (mkWorld Scenario.nudged []))
  = Ok COMMAND_SUCCESS
  /\ squares (sent (snd (reflect_move Scenario.center Scenario.codec Scenario.link_ok
                           (Chess.mkMove 12 28 None) (mkWorld Scenario.nudged []))))
     = [(12, 28)].
Proof.
  destruct (reflect_move_plain Scenario.center Scenario.codec Scenario.link_ok
              (Chess.mkMove 12 28 None) (mkWorld Scenario.nudged [])
              eq_refl eq_refl eq_refl) as [H1 H2].
  split; [exact H1|]. rewrite H2. reflexivity.
Defined.

(** X11 on castling written as king e1 onto the rook h1. *)
Lemma reflect_move_castling_unsupported_witness :
  reflect_move Scenario.center Scenario.codec Scenario.link_ok
    Scenario.castle_onto_rook (mkWorld Scenario.castle_board [])
  = (Ok COMMAND_FAILURE, mkWorld Scenario.castle_board []).
Proof.
  apply reflect_move_castling_unsupported;
    [reflexivity | discriminate | discriminate | discriminate | discriminate].
Defined.

(** X12 on the rook taking the knight. *)
Lemma reflect_move_returns_witness :
  exists r,
    fst (reflect_move Scenario.center Scenario.codec Scenario.link_dead
           Scenario.capture_move (mkWorld Scenario.capture_board []))
    = Ok r.
Proof.
  apply reflect_move_returns.
  - vm_compute. discriminate.
  - intros _. vm_compute. discriminate.
Defined.

(** X13 on castling short: e1-g1, then h1-f1. *)
Lemma reflect_move_castling_plan_witness :
  exists issued,
    sent (snd (reflect_move Scenario.center Scenario.codec Scenario.link_ok
                 Scenario.castle_short (mkWorld Scenario.castle_board [])))
    = [] ++ issued
    /\ squares issued = [(4, 6); (7, 5)].
Proof.
  destruct (reflect_move_castling_plan Scenario.center Scenario.codec
              Scenario.castle_short (Chess.mkMove 7 5 None)
              (mkWorld Scenario.castle_board []) eq_refl eq_refl) as [_ H].
  exact H.
Defined.

(** X14 on g7xh8=Q: the rook to its slot, the pawn to its slot, the queen
    from hers to h8. *)
Lemma reflect_move_regular_plan_witness :
  exists issued,
    sent (snd (reflect_move Scenario.center Scenario.codec Scenario.link_ok
                 Scenario.promotion_move (mkWorld Scenario.promotion_board [])))
    = [] ++ issued
    /\ squares issued = [(63, -7); (54, -6); (-4, 63)].
Proof.
  destruct (reflect_move_regular_plan Scenario.center Scenario.codec
              Scenario.promotion_move (Scenario.white PAWN)
              (mkWorld Scenario.promotion_board []) eq_refl eq_refl eq_refl)
    as [_ H].
  - intros _. vm_compute. discriminate.
  - exact H.
Defined.

(** X15 on e5xd6: the captured pawn stands on d5. *)
Lemma en_passant_captured_geometry_witness :
  Chess.square_rank (en_passant_captured Scenario.en_passant_move)
  = Chess.square_rank 36
  /\ Chess.square_file (en_passant_captured Scenario.en_passant_move)
     = Chess.square_file 43.
Proof.
  destruct (en_passant_captured_geometry Scenario.en_passant_move)
    as (_ & H1 & H2).
  - cbn. lia.
  - cbn. lia.
  - left. reflexivity.
  - reflexivity.
  - split; [exact H1|exact H2].
Defined.

(** X16 on castling short. *)
Lemma castle_rook_move_geometry_witness :
  Z.abs (Chess.to_square (Chess.mkMove 7 5 None)
         - Chess.to_square Scenario.castle_short) = 1.
Proof.
  destruct (castle_rook_move_geometry (chess_board Scenario.castle_board)
              Scenario.castle_short (Chess.mkMove 7 5 None) eq_refl)
    as (_ & _ & _ & H & _).
  exact H.
Defined.

(** X18 on e2-e4. *)
Lemma identify_move_endpoints_witness :
  In 12 (dissapeared Scenario.before_e4 Scenario.after_e4)
  /\ In 28 (appeared Scenario.before_e4 Scenario.after_e4).
Proof.
  exact (identify_move_endpoints Scenario.before_e4 Scenario.after_e4
           (Chess.mkMove 12 28 None) eq_refl).
Defined.

(** X20 on e5xd6 en passant. *)
Lemma identify_move_en_passant_sound_witness :
  Chess.is_en_passant (chess_board Scenario.en_passant_board)
                      (Chess.mkMove 36 43 None) = true.
Proof.
  destruct (identify_move_en_passant_sound
              (chess_board Scenario.en_passant_board) Scenario.after_en_passant
              35 36 43 (Chess.mkMove 36 43 None) eq_refl eq_refl eq_refl)
    as (H & _).
  exact H.
Defined.

(** X21 on castling short. *)
Lemma identify_move_castling_sound_witness :
  Chess.is_castling (chess_board Scenario.castle_board) Scenario.castle_short
  = true.
Proof.
  destruct (identify_move_castling_sound
              (chess_board Scenario.castle_board) Scenario.after_castle
              4 7 5 6 Scenario.castle_short eq_refl eq_refl eq_refl)
    as (H & _).
  exact H.
Defined.

(** X22 on e7-e8=Q. *)
Lemma identify_move_promotion_sound_witness :
  exists pawn promoted,
    Chess.piece_at Scenario.before_promotion 52 = Some pawn
    /\ piece_type pawn = PAWN
    /\ on_edge_rank 60 = true
    /\ Chess.piece_at Scenario.after_promotion 60 = Some promoted
    /\ piece_type promoted = QUEEN
    /\ color promoted = color pawn.
Proof.
  exact (identify_move_promotion_sound Scenario.before_promotion
           Scenario.after_promotion (Chess.mkMove 52 60 (Some QUEEN)) QUEEN
           eq_refl eq_refl).
Defined.

(** X24 and X25 on a board that already shows the target. *)
Lemma iter_reset_board_matched_witness :
  fst (iter_reset_board Scenario.center Scenario.codec Scenario.link_dead
         Scenario.bare_kings (mkWorld Scenario.bare_kings []))
  = Ok (COMMAND_SUCCESS, true).
Proof.
  rewrite iter_reset_board_matched; [reflexivity|].
  intros k _. reflexivity.
Defined.

Lemma iter_reset_board_done_sound_witness :
  rb_piece_at Scenario.bare_kings 4 = Some (Scenario.white KING).
Proof.
  apply (iter_reset_board_done_sound Scenario.center Scenario.codec
           Scenario.link_dead Scenario.bare_kings
           (mkWorld Scenario.bare_kings []) COMMAND_SUCCESS).
  - vm_compute. reflexivity.
  - lia.
  - reflexivity.
Defined.

(** X26: the rook on a1 is wanted on b1. *)
Lemma first_pass_places_wanted_piece_witness :
  exists p, rb_piece_at Scenario.rook_a1 0 = Some p
            /\ rb_piece_at Scenario.rook_b1 1 = Some p.
Proof.
  destruct (first_pass_places_wanted_piece Scenario.rook_b1
              (mkWorld Scenario.rook_a1 []) 0 1) as (_ & _ & H & _).
  - vm_compute. reflexivity.
  - exact H.
Defined.

(** X27: the rook wanted on b1 has to come from its slot. *)
Lemma iter_reset_board_third_pass_raises_witness :
  fst (iter_reset_board Scenario.center Scenario.codec Scenario.link_ok
         Scenario.rook_b1 (mkWorld Scenario.bare_kings []))
  = Raise KeyError.
Proof.
  apply iter_reset_board_third_pass_raises.
  - vm_compute. reflexivity.
  - vm_compute. reflexivity.
  - vm_compute. discriminate.
  - intros c. reflexivity.
Defined.

(** X28: the same call on a dead link. *)
Lemma iter_reset_board_on_failure_witness :
  fst (iter_reset_board Scenario.center Scenario.codec Scenario.link_dead
         Scenario.rook_b1 (mkWorld Scenario.bare_kings []))
  = Ok (COMMAND_FAILURE, false).
Proof.
  destruct (iter_reset_board_on_failure Scenario.center Scenario.codec
              Scenario.link_dead Scenario.rook_b1
              (mkWorld Scenario.bare_kings [])) as [[H _] | [H _]].
  - intros c. reflexivity.
  - exfalso. vm_compute in H. discriminate.
  - exact H.
Defined.

(** X29: the surplus rook on b1 is sent to a1, where board and target
    agree. *)
Lemma second_pass_choice_witness :
  rb_piece_at Scenario.rook_b1 0 = rb_piece_at Scenario.bare_kings 0.
Proof.
  destruct (second_pass_choice Scenario.bare_kings
              (mkWorld Scenario.rook_b1 []) 1 0) as (_ & _ & _ & _ & H).
  - vm_compute. reflexivity.
  - exact H.
Defined.
